(** * mlx-benchmark: the process-isolated measurement runner

    A shallow embedding of [src/mlx_benchmark/run_benchmark.py]:
    the single-iteration executor [run], the orchestrator [run_processes]
    and the start-up checks of the script body ([main]).

    Modelling conventions.
    - Python dictionaries keep insertion order and the orchestrator reads
      [list(times.values())[0]], so a dictionary is an association list
      with unique keys, updated in place or extended at the end.
    - Durations are double precision floats, Rocq's primitive [float]
      (IEEE 754 binary64, with its infinities and NaN).  The runner only
      passes them on; [np.mean] is the one place where it computes with
      them, and numpy's summation is not part of this program: the model
      takes [np.mean] from the surroundings ([np_mean] in [Env]) as an
      arbitrary function from lists of floats to floats.
    - What an operation's [run] method returns is not decided by the
      runner: each [Operation] carries an oracle [op_run] giving, for the
      trial in which it is called, the ambient mlx device and the keyword
      arguments, either a duration or the exception raised.
    - The orchestrator and the process it spawns are sequentialised: the
      parent does nothing between [p.start()] and [queue.get()] but wait,
      so the child's whole execution is placed at [p.start()].  A
      [queue.get()] on a queue that nobody will ever feed is the outcome
      [Blocked].
    - Every primitive step is logged in [history] together with the
      loop position it belongs to and a snapshot of the live processes and
      of the queue, so that statements "at any time" are statements about
      every logged step. *)

From Stdlib Require Import PrimFloat.
From stdpp Require Import base list strings sorting.
Set Warnings "-inexact-float".

(** ** Python dictionaries *)

Section dict.
Context {K V : Type} `{EqDecision K}.

(** [d[k]], [None] standing for [KeyError]. *)
Fixpoint getitem (d : list (K * V)) (k : K) : option V :=
  match d with
  | [] => None
  | (k', v) :: d' => if decide (k' = k) then Some v else getitem d' k
  end.

(** [d[k] = v]: an existing key keeps its position, a new key goes last. *)
Fixpoint setitem (d : list (K * V)) (k : K) (v : V) : list (K * V) :=
  match d with
  | [] => [(k, v)]
  | (k', v') :: d' =>
      if decide (k' = k) then (k, v) :: d' else (k', v') :: setitem d' k v
  end.

Definition keys (d : list (K * V)) : list K := d.*1.
Definition values (d : list (K * V)) : list V := d.*2.

(** [d[k]] on a [defaultdict]: a missing key is first bound to the
    default, then returned. *)
Definition default_getitem (dflt : V) (d : list (K * V)) (k : K)
  : V * list (K * V) :=
  match getitem d k with
  | Some v => (v, d)
  | None => (dflt, setitem d k dflt)
  end.
End dict.

(** [d[k1][k2] = v] on a [defaultdict(dict)]: the inner dictionary is the
    object stored under [k1], created empty when missing, and is mutated
    in place. *)
Definition setitem2 {K1 K2 V : Type} `{EqDecision K1, EqDecision K2}
    (d : list (K1 * list (K2 * V))) (k1 : K1) (k2 : K2) (v : V)
  : list (K1 * list (K2 * V)) :=
  let '(inner, d') := default_getitem [] d k1 in
  setitem d' k1 (setitem inner k2 v).

(** [d[k].append(x)] on a [defaultdict(list)]. *)
Definition append_item {K V : Type} `{EqDecision K}
    (d : list (K * list V)) (k : K) (x : V) : list (K * list V) :=
  let '(l, d') := default_getitem [] d k in
  setitem d' k (l ++ [x]).

(** ** Data model *)

(** A timing fragment or set: operation label -> backend key -> value. *)
Abbreviation Timings := (list (string * list (string * float))).

(** The final set is keyed by [op_name], which is [None] or a label. *)
Abbreviation AllTimes := (list (option string * list (string * float))).

(** [mx.gpu] and [mx.cpu]. *)
Inductive MxDevice := mx_gpu | mx_cpu.

#[global] Instance MxDevice_eq_dec : EqDecision MxDevice.
Proof. solve_decision. Defined.

(** Keyword arguments of one [op.run(...)] call; [None] is "not passed". *)
Record Kwargs := {
  framework : string;
  device : option string;       (* [torch.device(name)] *)
  compile_kw : option bool
}.

#[global] Instance Kwargs_eq_dec : EqDecision Kwargs.
Proof. solve_decision. Defined.

Inductive Exn :=
| NameError (name : string)
| IndexError (msg : string)
| AssertionError (msg : string)
| Exception (msg : string).

Inductive Outcome (A : Type) :=
| Ok (a : A)
| Raise (e : Exn).
Arguments Ok {A} a.
Arguments Raise {A} e.

(** An operation of the catalogue as the runner sees it: the class name,
    [args_str], and the behaviour of [run] in the execution context of a
    given trial, under a given mlx default device. *)
Record Operation := {
  type_name : string;
  args_str : string;
  op_run : nat -> option MxDevice -> Kwargs -> Outcome float
}.

(** The parsed command line ([strtobool] yields 0 or 1). *)
Record Args := {
  include_cpu : bool;
  include_mps : bool;
  include_mlx : bool;
  include_cuda : bool;
  compile : bool
}.

(** What the module sees of its surroundings: whether the name [mx] is
    bound (line 20 binds it when [config.USE_MLX] holds), the answers
    of [torch.cuda.is_available()] and
    [torch.backends.mps.is_available()], and numpy's [np.mean] on a list
    of floats. *)
Record Env := {
  mx_bound : bool;
  cuda_is_available : bool;
  mps_is_available : bool;
  np_mean : list float -> float
}.

(** The one [mp.Queue] of the program, as an argument of [run]. *)
Inductive Queue := result_queue.

Inductive Action :=
| Create (pid : nat)                     (* p = mp.Process(...) *)
| Start (pid : nat)                      (* p.start() *)
| SetDevice (d : MxDevice)               (* mx.set_default_device(d) *)
| OpRun (ambient : option MxDevice) (kw : Kwargs)   (* op.run with keywords kw *)
| Put (m : Timings)                      (* queue.put(m) *)
| Crash (pid : nat) (e : Exn)            (* uncaught exception in a child *)
| Get (m : Timings)                      (* queue.get() *)
| Join (pid : nat)                       (* p.join() *)
| Append (backend : string) (t : float) (now : list float)
                       (* op_times[backend].append(t); now = op_times[backend] *)
| Update.                                (* pbar.update(1) *)

(** One logged step: the loop position (catalogue index, trial), what was
    done, and the state right after it.  An [Append] step carries the list
    that [op_times] holds under the backend once the sample is appended,
    read back from the dictionary. *)
Record Step := {
  at_op : nat;
  at_trial : nat;
  act : Action;
  alive_now : list nat;
  queue_now : list Timings
}.

Record World := {
  queue : list Timings;            (* contents of the result queue *)
  mx_default : option MxDevice;    (* mlx default device of the running process *)
  cur_op : nat;                    (* position of [op] in [operations] *)
  cur_trial : nat;                 (* the loop variable [_] *)
  spawned : nat;                   (* Process objects created so far *)
  alive : list nat;                (* started and not yet joined *)
  pbar : nat;
  history : list Step;
  reports : list (AllTimes * bool) (* calls of print_benchmark *)
}.

Definition init_world : World :=
  {| queue := []; mx_default := None; cur_op := 0; cur_trial := 0;
     spawned := 0; alive := []; pbar := 0; history := []; reports := [] |}.

(** ** The monad of the program: state, exceptions, blocking *)

Inductive Res (A : Type) :=
| Done (a : A) (w : World)
| Raised (e : Exn) (w : World)
| Blocked (w : World).
Arguments Done {A} a w.
Arguments Raised {A} e w.
Arguments Blocked {A} w.

Definition M (A : Type) : Type := World -> Res A.

#[global] Instance M_ret : MRet M := fun A a w => Done a w.
#[global] Instance M_bind : MBind M := fun A B f m w =>
  match m w with
  | Done a w' => f a w'
  | Raised e w' => Raised e w'
  | Blocked w' => Blocked w'
  end.

Definition raise {A : Type} (e : Exn) : M A := fun w => Raised e w.

Definition final {A : Type} (r : Res A) : World :=
  match r with Done _ w | Raised _ w | Blocked w => w end.

Definition modify (f : World -> World) : M unit := fun w => Done tt (f w).

Definition log (a : Action) (w : World) : World :=
  {| queue := queue w; mx_default := mx_default w; cur_op := cur_op w;
     cur_trial := cur_trial w; spawned := spawned w; alive := alive w;
     pbar := pbar w;
     history := history w ++
       [{| at_op := cur_op w; at_trial := cur_trial w; act := a;
           alive_now := alive w; queue_now := queue w |}];
     reports := reports w |}.

Definition set_queue (q : list Timings) (w : World) : World :=
  {| queue := q; mx_default := mx_default w; cur_op := cur_op w;
     cur_trial := cur_trial w; spawned := spawned w; alive := alive w;
     pbar := pbar w; history := history w; reports := reports w |}.

Definition set_mx_default (d : option MxDevice) (w : World) : World :=
  {| queue := queue w; mx_default := d; cur_op := cur_op w;
     cur_trial := cur_trial w; spawned := spawned w; alive := alive w;
     pbar := pbar w; history := history w; reports := reports w |}.

Definition set_cursor (i j : nat) (w : World) : World :=
  {| queue := queue w; mx_default := mx_default w; cur_op := i;
     cur_trial := j; spawned := spawned w; alive := alive w;
     pbar := pbar w; history := history w; reports := reports w |}.

Definition set_procs (n : nat) (l : list nat) (w : World) : World :=
  {| queue := queue w; mx_default := mx_default w; cur_op := cur_op w;
     cur_trial := cur_trial w; spawned := n; alive := l;
     pbar := pbar w; history := history w; reports := reports w |}.

Definition set_pbar (n : nat) (w : World) : World :=
  {| queue := queue w; mx_default := mx_default w; cur_op := cur_op w;
     cur_trial := cur_trial w; spawned := spawned w; alive := alive w;
     pbar := n; history := history w; reports := reports w |}.

Definition add_report (r : AllTimes * bool) (w : World) : World :=
  {| queue := queue w; mx_default := mx_default w; cur_op := cur_op w;
     cur_trial := cur_trial w; spawned := spawned w; alive := alive w;
     pbar := pbar w; history := history w; reports := reports w ++ [r] |}.

(** A loop [for x in l] threading the variables the body assigns. *)
Fixpoint for_each {A S : Type} (l : list A) (body : A -> S -> M S) (s : S)
  : M S :=
  match l with
  | [] => mret s
  | x :: l' => s' ← body x s; for_each l' body s'
  end.

(** ** Primitives of the surrounding libraries *)

(** [mx.set_default_device(d)]; evaluating [mx] fails when unbound. *)
Definition mx_set_default_device (env : Env) (d : MxDevice) : M unit :=
  if mx_bound env
  then modify (fun w => log (SetDevice d) (set_mx_default (Some d) w))
  else raise (NameError "mx").

(** [op.run] called with the keywords [kw] in the running execution context. *)
Definition call_run (op : Operation) (kw : Kwargs) : M float := fun w =>
  let w' := log (OpRun (mx_default w) kw) w in
  match op_run op (cur_trial w) (mx_default w) kw with
  | Ok t => Done t w'
  | Raise e => Raised e w'
  end.

(** [queue.put(m)]. *)
Definition queue_put (q : Queue) (m : Timings) : M unit :=
  modify (fun w => log (Put m) (set_queue (queue w ++ [m]) w)).

(** [queue.get()]: with every producer gone and nothing queued, the
    caller waits forever. *)
Definition queue_get (q : Queue) : M Timings := fun w =>
  match queue w with
  | m :: rest => Done m (log (Get m) (set_queue rest w))
  | [] => Blocked w
  end.

(** [mp.Queue()]. *)
Definition mp_Queue : M Queue := fun w => Done result_queue (set_queue [] w).

(** [mp.Process(target=..., args=...)]: a new process object. *)
Definition mp_Process : M nat := fun w =>
  Done (spawned w) (log (Create (spawned w)) (set_procs (S (spawned w)) (alive w) w)).

(** [p.start()]: the child imports the module afresh (no mlx device
    selected yet), runs its target and exits.  An exception in the child
    ends the child only; the parent is not told. *)
Definition p_start {A : Type} (p : nat) (target : M A) : M unit := fun w =>
  let w1 := log (Start p)
              (set_mx_default None (set_procs (spawned w) (alive w ++ [p]) w)) in
  match target w1 with
  | Done _ w2 => Done tt (set_mx_default (mx_default w) w2)
  | Raised e w2 => Done tt (set_mx_default (mx_default w) (log (Crash p e) w2))
  | Blocked w2 => Blocked w2
  end.

(** [p.join()]. *)
Definition p_join (p : nat) : M unit :=
  modify (fun w =>
    log (Join p)
      (set_procs (spawned w) (filter (fun x => x ≠ p) (alive w)) w)).

(** [pbar.update(1)]. *)
Definition pbar_update : M unit :=
  modify (fun w => log Update (set_pbar (S (pbar w)) w)).

(** [print_benchmark(all_times, args, reduce_mean=b)]. *)
Definition print_benchmark (all_times : AllTimes) (b : bool) : M unit :=
  modify (add_report (all_times, b)).

(** [list(xs)[0]]. *)
Definition index0 {A : Type} (xs : list A) : M A :=
  match xs with
  | x :: _ => mret x
  | [] => raise (IndexError "list index out of range")
  end.

(** ** [run]: the single-iteration executor (lines 65-107) *)

Definition kw_mlx : Kwargs :=
  {| framework := "mlx"; device := None; compile_kw := None |}.
Definition kw_mlx_compile : Kwargs :=
  {| framework := "mlx"; device := None; compile_kw := Some true |}.
Definition kw_torch (name : string) : Kwargs :=
  {| framework := "torch"; device := Some name; compile_kw := None |}.

Definition run (env : Env) (op : Operation) (args : Args)
    (queue : option Queue) : M (option Timings) :=
  let times : Timings := [] in
  let op_name := type_name op +:+ " / " +:+ args_str op in
  (* MLX benchmark. *)
  times ←
    (if include_mlx args then
       (* GPU *)
       mx_set_default_device env mx_gpu;;
       mlx_time ← call_run op kw_mlx;
       let times := setitem2 times op_name "mlx_gpu" mlx_time in
       (* Compiled GPU kernels *)
       times ←
         (if compile args then
            mlx_time ← call_run op kw_mlx_compile;
            mret (setitem2 times op_name "mlx_gpu_compile" mlx_time)
          else mret times);
       (* CPU *)
       if include_cpu args then
         mx_set_default_device env mx_cpu;;
         mlx_time ← call_run op kw_mlx;
         mret (setitem2 times op_name "mlx_cpu" mlx_time)
       else mret times
     else mret times);
  (* CPU PyTorch benchmarks. *)
  times ←
    (if include_cpu args then
       cpu_time ← call_run op (kw_torch "cpu");
       mret (setitem2 times op_name "cpu" cpu_time)
     else mret times);
  (* MPS PyTorch benchmarks. *)
  times ←
    (if include_mps args then
       mps_time ← call_run op (kw_torch "mps");
       mret (setitem2 times op_name "mps" mps_time)
     else mret times);
  (* CUDA PyTorch benchmark. *)
  times ←
    (if include_cuda args then
       cuda_time ← call_run op (kw_torch "cuda");
       mret (setitem2 times op_name "cuda" cuda_time)
     else mret times);
  match queue with
  | None => mret (Some times)
  | Some q => queue_put q times;; mret None
  end.

(** ** [run_processes]: the orchestrator (lines 26-62) *)

(** The variables the trials of one operation assign: [op_times] and
    [op_name]. *)
Abbreviation OpState := (list (string * list float) * option string)%type.

(** Lines 40-50: the body of [for _ in range(iterations)]. *)
Definition trial (env : Env) (op : Operation) (args : Args) (queue : Queue)
    (st : OpState) : M OpState :=
  let '(op_times, _) := st in
  p ← mp_Process;
  p_start p (run env op args (Some queue));;
  times ← queue_get queue;
  p_join p;;
  fragment ← index0 (values times);
  op_times ←
    for_each fragment
      (fun '(backend, time) op_times =>
         let op_times := append_item op_times backend time in
         modify (log (Append backend time
                        (default [] (getitem op_times backend))));;
         mret op_times)
      op_times;
  op_name ← index0 (keys times);
  pbar_update;;
  mret (op_times, Some op_name).

(** Lines 36-57: the body of [for op in operations], for the operation at
    position [i].  [del op] and [gc.collect()] change nothing that the
    model observes. *)
Definition per_op (env : Env) (args : Args) (iterations : nat)
    (queue : Queue) (iop : nat * Operation) (all_times : AllTimes)
  : M AllTimes :=
  let '(i, op) := iop in
  '(op_times, op_name) ←
    for_each (seq 0 iterations)
      (fun j st => modify (set_cursor i j);; trial env op args queue st)
      ([], None);
  let op_times_mean := (fun '(k, v) => (k, np_mean env v)) <$> op_times in
  mret (setitem all_times op_name op_times_mean).

Definition run_processes (env : Env) (operations : list Operation)
    (args : Args) (iterations : nat) : M unit :=
  let all_times : AllTimes := [] in
  queue ← mp_Queue;
  modify (set_pbar 0);;
  all_times ←
    for_each (imap pair operations) (per_op env args iterations queue)
      all_times;
  print_benchmark all_times false;;
  print_benchmark all_times true.

(** ** The script body (lines 110-215) *)

Definition assert_ (cond : bool) (msg : string) : M unit :=
  if cond then mret tt else raise (AssertionError msg).

(** [operations] is the catalogue built at lines 127-213 from the classes
    of the [operations] module. *)
Definition main (env : Env) (operations : list Operation) (args : Args)
  : M unit :=
  (if include_cuda args
   then assert_ (cuda_is_available env) "CUDA device not found."
   else mret tt);;
  (if include_mps args
   then assert_ (mps_is_available env) "MPS backend not available."
   else mret tt);;
  run_processes env operations args 5.

(** * What the code computes, in closed form

    The definitions of this part are not translated from the source.  They
    describe the behaviour of the embedding above as plain functions of the
    flags and of the answers of the operations: the backend matrix of the
    executor, the steps of one trial, the steps of a run, and the
    aggregated timing set.  The lemmas [run_spec], [trial_spec],
    [trials_spec], [ops_spec] and [run_processes_spec] prove that [run],
    [trial] and [run_processes] compute exactly this. *)

(** ** The backend matrix

    The table of backend/device combinations: the key a timing is
    recorded under, the condition on the flags, the device selected right
    before the call (if any), the mlx default device in force during the
    call (given the flags and the device in force when the executor is
    entered), and the keyword arguments of the call.  The keys of the
    source stand for the backend identifiers of the specification:
    [mlx_gpu] accelerator GPU, [mlx_gpu_compile] its compiled variant,
    [mlx_cpu] accelerator CPU, [cpu] plain CPU, [mps] unified memory,
    [cuda] discrete accelerator. *)

Record Backend := {
  key : string;
  enabled : Args -> bool;
  select : option MxDevice;
  ambient : Args -> option MxDevice -> option MxDevice;
  kwargs : Kwargs
}.

(** The torch calls run under whatever mlx device was selected last. *)
Definition torch_ambient (a : Args) (entry : option MxDevice)
  : option MxDevice :=
  if include_mlx a then Some (if include_cpu a then mx_cpu else mx_gpu)
  else entry.

Definition row_mlx_gpu : Backend :=
  {| key := "mlx_gpu"; enabled := include_mlx; select := Some mx_gpu;
     ambient := fun _ _ => Some mx_gpu; kwargs := kw_mlx |}.
Definition row_mlx_gpu_compile : Backend :=
  {| key := "mlx_gpu_compile";
     enabled := fun a => include_mlx a && compile a; select := None;
     ambient := fun _ _ => Some mx_gpu; kwargs := kw_mlx_compile |}.
Definition row_mlx_cpu : Backend :=
  {| key := "mlx_cpu"; enabled := fun a => include_mlx a && include_cpu a;
     select := Some mx_cpu;
     ambient := fun _ _ => Some mx_cpu; kwargs := kw_mlx |}.
Definition row_cpu : Backend :=
  {| key := "cpu"; enabled := include_cpu; select := None;
     ambient := torch_ambient; kwargs := kw_torch "cpu" |}.
Definition row_mps : Backend :=
  {| key := "mps"; enabled := include_mps; select := None;
     ambient := torch_ambient; kwargs := kw_torch "mps" |}.
Definition row_cuda : Backend :=
  {| key := "cuda"; enabled := include_cuda; select := None;
     ambient := torch_ambient; kwargs := kw_torch "cuda" |}.

Definition matrix : list Backend :=
  [row_mlx_gpu; row_mlx_gpu_compile; row_mlx_cpu; row_cpu; row_mps; row_cuda].

Definition enabled_backends (args : Args) : list Backend :=
  List.filter (fun b => enabled b args) matrix.

(** The label of an operation (line 70). *)
Definition label (op : Operation) : string :=
  type_name op +:+ " / " +:+ args_str op.

(** The invocation a backend of the matrix stands for. *)
Definition invocation (args : Args) (entry : option MxDevice) (b : Backend)
  : option MxDevice * Kwargs :=
  (ambient b args entry, kwargs b).

(** What the operation answers to the invocation of backend [b] in the
    context of trial [j]. *)
Definition answer (op : Operation) (j : nat) (args : Args)
    (entry : option MxDevice) (b : Backend) : Outcome float :=
  op_run op j (ambient b args entry) (kwargs b).

(** The actions one backend of the matrix stands for. *)
Definition actions_of (args : Args) (entry : option MxDevice) (b : Backend)
  : list Action :=
  match select b with Some d => [SetDevice d] | None => [] end ++
  [OpRun (ambient b args entry) (kwargs b)].

(** Running a list of backends in order, in the context of trial [j]
    entered under the mlx device [entry]: the actions performed and either
    the recorded (key, duration) pairs or the first exception. *)
Fixpoint measure (env : Env) (op : Operation) (j : nat) (args : Args)
    (entry : option MxDevice) (bs : list Backend)
  : list Action * Outcome (list (string * float)) :=
  match bs with
  | [] => ([], Ok [])
  | b :: bs' =>
      if bool_decide (is_Some (select b)) && negb (mx_bound env)
      then ([], Raise (NameError "mx"))
      else
        let pre :=
          match select b with Some d => [SetDevice d] | None => [] end in
        let call := OpRun (ambient b args entry) (kwargs b) in
        match op_run op j (ambient b args entry) (kwargs b) with
        | Raise e => (pre ++ [call], Raise e)
        | Ok t =>
            let '(acts, r) := measure env op j args entry bs' in
            (pre ++ call :: acts,
             match r with
             | Ok inner => Ok ((key b, t) :: inner)
             | Raise e => Raise e
             end)
        end
  end.

(** The fragment holding the recorded pairs: no entry at all when nothing
    was recorded. *)
Definition fragment_of (op : Operation) (inner : list (string * float))
  : Timings :=
  match inner with
  | [] => []
  | _ => [(label op, inner)]
  end.

(** What the executor records in the fresh context of trial [j]. *)
Definition fragment (env : Env) (op : Operation) (args : Args) (j : nat)
  : Outcome (list (string * float)) :=
  snd (measure env op j args None (enabled_backends args)).

Definition got (env : Env) (op : Operation) (args : Args) (j : nat)
  : list (string * float) :=
  match fragment env op args j with
  | Ok inner => inner
  | Raise _ => []
  end.

(** The actions of the child of trial [j]. *)
Definition child_acts (env : Env) (op : Operation) (args : Args) (j : nat)
  : list Action :=
  fst (measure env op j args None (enabled_backends args)).

(** How a computation, a trial or a loop ends. *)
Inductive Status :=
| SDone
| SRaised (e : Exn)
| SBlocked.

Definition status {A : Type} (r : Res A) : Status :=
  match r with
  | Done _ _ => SDone
  | Raised e _ => SRaised e
  | Blocked _ => SBlocked
  end.

(** How trial [j] ends for the orchestrator: it goes on when the child
    delivered a non-empty fragment, it fails on [list(...)[0]] when the
    fragment is empty, and it waits forever when the child raised. *)
Definition trial_status (env : Env) (op : Operation) (args : Args) (j : nat)
  : Status :=
  match fragment env op args j with
  | Ok (_ :: _) => SDone
  | Ok [] => SRaised (IndexError "list index out of range")
  | Raise _ => SBlocked
  end.

(** A loop whose body ends as [f] says runs the elements up to and
    including the first one that does not end normally. *)
Fixpoint executed {A : Type} (f : A -> Status) (l : list A) : list A :=
  match l with
  | [] => []
  | x :: l' =>
      match f x with
      | SDone => x :: executed f l'
      | _ => [x]
      end
  end.

Fixpoint loop_status {A : Type} (f : A -> Status) (l : list A) : Status :=
  match l with
  | [] => SDone
  | x :: l' =>
      match f x with
      | SDone => loop_status f l'
      | s => s
      end
  end.

(** The step logged for action [a] at loop position [(i, j)]. *)
Definition step_at (i j : nat) (al : list nat) (qu : list Timings)
    (a : Action) : Step :=
  {| at_op := i; at_trial := j; act := a; alive_now := al; queue_now := qu |}.

(** Logging a list of actions. *)
Definition record (acts : list Action) (w : World) : World :=
  foldl (fun w a => log a w) w acts.

(** Folding the samples of one fragment into [op_times] (lines 46-47). *)
Definition collect (op_times : list (string * list float))
    (inner : list (string * float)) : list (string * list float) :=
  foldl (fun d '(backend, time) => append_item d backend time) op_times inner.

(** The appends logged while the fragment [inner] is folded into
    [op_times], each with the list found under its backend afterwards. *)
Fixpoint appends (op_times : list (string * list float))
    (inner : list (string * float)) : list Action :=
  match inner with
  | [] => []
  | (b, t) :: inner' =>
      let op_times' := append_item op_times b t in
      Append b t (default [] (getitem op_times' b)) :: appends op_times' inner'
  end.

(** The sample lists of an operation after [n] trials. *)
Definition samples (env : Env) (op : Operation) (args : Args) (n : nat)
  : list (string * list float) :=
  foldl (fun ot j => collect ot (got env op args j)) [] (seq 0 n).

(** The steps of trial [j] of the operation at position [i], run as
    process [p] while nothing else is alive and the queue is empty, the
    earlier trials of the operation having filled [op_times]. *)
Definition trial_steps (env : Env) (op : Operation) (args : Args)
    (i j p : nat) : list Step :=
  let '(acts, r) := measure env op j args None (enabled_backends args) in
  [step_at i j [] [] (Create p); step_at i j [p] [] (Start p)] ++
  (step_at i j [p] [] <$> acts) ++
  match r with
  | Raise e => [step_at i j [p] [] (Crash p e)]
  | Ok inner =>
      let times := fragment_of op inner in
      [step_at i j [p] [times] (Put times); step_at i j [p] [] (Get times);
       step_at i j [] [] (Join p)] ++
      match inner with
      | [] => []
      | _ =>
          (step_at i j [] [] <$> appends (samples env op args j) inner) ++
          [step_at i j [] [] Update]
      end
  end.

(** The world after [k] complete trials that logged [steps], the last of
    them at loop position [(i, j)]. *)
Definition advance (i j k : nat) (steps : list Step) (w : World) : World :=
  {| queue := []; mx_default := mx_default w; cur_op := i; cur_trial := j;
     spawned := spawned w + k; alive := []; pbar := pbar w + k;
     history := history w ++ steps; reports := reports w |}.

(** How the trials of the operation at a catalogue position end. *)
Definition op_status (env : Env) (args : Args) (n : nat)
    (iop : nat * Operation) : Status :=
  loop_status (trial_status env iop.2 args) (seq 0 n).

(** The steps of the trials of one operation that are run, the processes
    being numbered from [P] on, [n] per operation. *)
Definition op_steps (env : Env) (args : Args) (n P : nat)
    (iop : nat * Operation) : list Step :=
  executed (trial_status env iop.2 args) (seq 0 n) ≫=
    fun j => trial_steps env iop.2 args iop.1 j (P + iop.1 * n + j).

(** The steps of a whole run of the orchestrator. *)
Definition run_steps (env : Env) (operations : list Operation) (args : Args)
    (n P : nat) : list Step :=
  executed (op_status env args n) (imap pair operations) ≫=
    op_steps env args n P.

(** How a run of the orchestrator ends. *)
Definition run_status (env : Env) (operations : list Operation)
    (args : Args) (n : nat) : Status :=
  loop_status (op_status env args n) (imap pair operations).

(** The means of the sample lists of an operation after [n] trials, the
    key they are stored under (line 48 assigns [op_name] in every trial;
    with no trial it is still [None]) and the store of line 53. *)
Definition means (env : Env) (op : Operation) (args : Args) (n : nat)
  : list (string * float) :=
  (fun '(k, v) => (k, np_mean env v)) <$> samples env op args n.

Definition op_key (op : Operation) (n : nat) : option string :=
  match n with
  | 0 => None
  | S _ => Some (label op)
  end.

Definition store (env : Env) (args : Args) (n : nat) (all_times : AllTimes)
    (op : Operation) : AllTimes :=
  setitem all_times (op_key op n) (means env op args n).

(** The aggregated timing set of a run that completes. *)
Definition aggregated (env : Env) (operations : list Operation)
    (args : Args) (n : nat) : AllTimes :=
  foldl (store env args n) [] operations.

(** * What is observed of a computation *)

(** The fragment the executor hands over: the value returned, or the
    message it put last on the queue. *)
Definition delivered (r : Res (option Timings)) : option Timings :=
  match r with
  | Done (Some times) _ => Some times
  | Done None w' => last (queue w')
  | _ => None
  end.

(** The backend keys of a fragment, in insertion order. *)
Definition backend_keys (times : Timings) : list string :=
  times ≫= fun entry => keys entry.2.

(** The actions a computation started in [w] has logged. *)
Definition logged {A : Type} (w : World) (r : Res A) : list Action :=
  act <$> drop (length (history w)) (history (final r)).

(** The [op.run] invocations among a list of actions, in order, each with
    the mlx device in force. *)
Definition invocations (acts : list Action)
  : list (option MxDevice * Kwargs) :=
  omap (fun a => match a with OpRun amb kw => Some (amb, kw) | _ => None end)
    acts.

(** Observers of a list of logged steps: the steps of one loop position,
    the process objects created, the messages put and taken, the
    processes joined. *)
Definition steps_at (h : list Step) (i j : nat) : list Step :=
  filter (fun s => at_op s = i /\ at_trial s = j) h.

Definition is_create (a : Action) : option nat :=
  match a with Create p => Some p | _ => None end.
Definition is_put (a : Action) : option Timings :=
  match a with Put m => Some m | _ => None end.
Definition is_get (a : Action) : option Timings :=
  match a with Get m => Some m | _ => None end.
Definition is_join (a : Action) : option nat :=
  match a with Join p => Some p | _ => None end.

Definition created (h : list Step) : list nat := omap is_create (act <$> h).
Definition puts (h : list Step) : list Timings := omap is_put (act <$> h).
Definition gets (h : list Step) : list Timings := omap is_get (act <$> h).
Definition joins (h : list Step) : list nat := omap is_join (act <$> h).

(** [s1] belongs to a loop position that is not after that of [s2], in
    the order of the two nested loops. *)
Definition not_after (s1 s2 : Step) : Prop :=
  at_op s1 < at_op s2 \/ (at_op s1 = at_op s2 /\ at_trial s1 <= at_trial s2).

(** What the snapshot of a step says about the processes alive. *)
Definition context_discipline (s : Step) : Prop :=
  length (alive_now s) <= 1
  /\ match act s with
     | Create _ => alive_now s = [] /\ queue_now s = []
     | Start p => alive_now s = [p]
     | SetDevice _ | OpRun _ _ | Put _ | Get _ => exists p, alive_now s = [p]
     | Crash p _ => alive_now s = [p]
     | Join _ => alive_now s = [] /\ queue_now s = []
     | Append _ _ _ | Update => alive_now s = []
     end.

(** What the snapshot of a step says about the queue: it holds the message
    just put, and nothing at any other step. *)
Definition channel_discipline (s : Step) : Prop :=
  match act s with
  | Put m => queue_now s = [m]
  | _ => queue_now s = []
  end.

(** [m] holds, for each enabled backend and for nothing else, what
    [np.mean] returns for the list of the [n] durations the operation
    returned in its [n] trials, in the order of the trials. *)
Definition means_of (env : Env) (op : Operation) (args : Args) (n : nat)
    (m : list (string * float)) : Prop :=
  NoDup (keys m)
  /\ (forall k, k ∈ keys m <-> exists b, b ∈ enabled_backends args /\ k = key b)
  /\ forall b, b ∈ enabled_backends args ->
       exists ts,
         length ts = n
         /\ (forall j, j < n ->
               exists t, ts !! j = Some t /\ answer op j args None b = Ok t)
         /\ getitem m (key b) = Some (np_mean env ts).

(** A duration is positive and finite: a positive normal or subnormal
    double, neither zero, nor infinite, nor NaN. *)
Definition positive_finite (t : float) : bool :=
  match classify t with
  | FloatClass.PNormal | FloatClass.PSubn => true
  | _ => false
  end.

(** The timing set a completed run hands to [print_benchmark]. *)
Definition reported (r : Res unit) (all_times : AllTimes) : Prop :=
  status r = SDone
  /\ reports (final r) = [(all_times, false); (all_times, true)].

(** * Concrete operations, flags and surroundings *)

(** An operation whose [run] always returns the duration [t]. *)
Definition const_op (name str : string) (t : float) : Operation :=
  {| type_name := name; args_str := str; op_run := fun _ _ _ => Ok t |}.

(** An operation whose [run] returns the [j]-th duration of [ts] in trial
    [j] and raises when the list is exhausted. *)
Definition list_op (name str : string) (ts : list float) : Operation :=
  {| type_name := name; args_str := str;
     op_run := fun j _ _ =>
       match ts !! j with
       | Some t => Ok t
       | None => Raise (Exception "unsupported")
       end |}.

Definition matmul : Operation :=
  list_op "MatMul" "32x1x1000 x 32x1000x128" [0.01; 0.03]%float.

(** An operation whose [run] raises in every trial. *)
Definition failing_op : Operation := list_op "Sort" "64x128x1024" [].

(** Two operations with one label and different timings. *)
Definition relu_first : Operation := const_op "ReLU" "128x16x1024" 0.01%float.
Definition relu_again : Operation := const_op "ReLU" "128x16x1024" 0.03%float.

Definition only_cpu : Args :=
  {| include_cpu := true; include_mps := false; include_mlx := false;
     include_cuda := false; compile := false |}.

Definition everything : Args :=
  {| include_cpu := true; include_mps := true; include_mlx := true;
     include_cuda := true; compile := true |}.

Definition nothing : Args :=
  {| include_cpu := false; include_mps := false; include_mlx := false;
     include_cuda := false; compile := true |}.

(** A stand-in for [np.mean] in the concrete runs: the doubles are added
    from left to right and the sum is divided by their number.  No
    theorem depends on this choice. *)
Definition mean_of (v : list float) : float :=
  (foldl add 0 v / foldl (fun k _ => k + 1) 0 v)%float.

Definition full_env : Env :=
  {| mx_bound := true; cuda_is_available := true; mps_is_available := true;
     np_mean := mean_of |}.

Definition no_cuda_env : Env :=
  {| mx_bound := true; cuda_is_available := false; mps_is_available := true;
     np_mean := mean_of |}.

(** The fragment of the first trial of [matmul] with every backend on. *)
Definition matmul_fragment : Timings :=
  [("MatMul / 32x1x1000 x 32x1000x128",
    [("mlx_gpu", 0.01); ("mlx_gpu_compile", 0.01); ("mlx_cpu", 0.01);
     ("cpu", 0.01); ("mps", 0.01); ("cuda", 0.01)]%float)].

(** C1 as stated: after a completed run, the label of every operation of
    the catalogue is mapped, for every enabled backend, to the mean of the
    samples of that operation. *)
Definition claimed_means (env : Env) (ops : list Operation) (args : Args)
    (n : nat) : Prop :=
  forall all_times,
    reported (run_processes env ops args n init_world) all_times ->
    forall i op b,
      ops !! i = Some op -> b ∈ enabled_backends args ->
      exists m ts,
        getitem all_times (Some (label op)) = Some m
        /\ length ts = n
        /\ (forall j, j < n ->
              exists t, ts !! j = Some t /\ answer op j args None b = Ok t)
        /\ getitem m (key b) = Some (np_mean env ts).

(** C10 as stated: the final timing set has an entry for the label of
    every operation, holding the means of the last operation with that
    label. *)
Definition claimed_entries (env : Env) (ops : list Operation) (args : Args)
    (n : nat) : Prop :=
  forall all_times,
    reported (run_processes env ops args n init_world) all_times ->
    NoDup (keys all_times)
    /\ forall i op,
         ops !! i = Some op ->
         (forall i' op', i < i' -> ops !! i' = Some op' ->
            label op' <> label op) ->
         exists m,
           getitem all_times (Some (label op)) = Some m
           /\ means_of env op args n m.

(** ** Counting the updates of the progress bar *)

Definition is_update (a : Action) : option unit :=
  match a with Update => Some tt | _ => None end.

(** The calls of [pbar.update(1)] among a list of logged steps. *)
Definition updates (h : list Step) : list unit := omap is_update (act <$> h).

(** [m] keeps the property [I] of the world, however it ends. *)
Definition keeps {A : Type} (I : World -> Prop) (m : M A) : Prop :=
  forall w, I w -> I (final (m w)).

(** The progress bar stands at the number of logged updates, less the [c]
    of them that were logged before it was set up. *)
Definition counted (c : nat) (w : World) : Prop :=
  pbar w + c = length (updates (history w)).

(** Surroundings in which [config.USE_MLX] is false, so that line 20 does
    not import mlx. *)
Definition no_mlx_env : Env :=
  {| mx_bound := false; cuda_is_available := false; mps_is_available := true;
     np_mean := mean_of |}.

Definition only_mlx : Args :=
  {| include_cpu := false; include_mps := false; include_mlx := true;
     include_cuda := false; compile := true |}.

(** * Properties *)

(** ** Dictionaries *)

Section dict_facts.
Context {K V : Type} `{EqDecision K}.
Implicit Types (d : list (K * V)) (k : K) (v : V).

Lemma getitem_setitem_eq d k v : getitem (setitem d k v) k = Some v.
Proof.
  induction d as [|[k' v'] d IH]; simpl.
  - by rewrite decide_True.
  - destruct (decide (k' = k)) as [->|Hne]; simpl.
    + by rewrite decide_True.
    + by rewrite decide_False.
Qed.

Lemma getitem_setitem_ne d k k' v :
  k <> k' -> getitem (setitem d k v) k' = getitem d k'.
Proof.
  intros Hne. induction d as [|[k0 v0] d IH]; simpl.
  - by rewrite decide_False.
  - destruct (decide (k0 = k)) as [->|Hne0]; simpl.
    + by rewrite !(decide_False (P := k = k')).
    + by rewrite IH.
Qed.
End dict_facts.

Lemma setitem2_nil {K1 K2 V : Type} `{EqDecision K1, EqDecision K2}
    (k1 : K1) (k2 : K2) (v : V) :
  setitem2 [] k1 k2 v = [(k1, [(k2, v)])].
Proof. unfold setitem2; simpl. by rewrite decide_True. Qed.

Lemma setitem2_single {K1 K2 V : Type} `{EqDecision K1, EqDecision K2}
    (k1 : K1) (inner : list (K2 * V)) (k2 : K2) (v : V) :
  setitem2 [(k1, inner)] k1 k2 v = [(k1, setitem inner k2 v)].
Proof.
  unfold setitem2, default_getitem; simpl.
  destruct (decide (k1 = k1)); [simpl|done].
  by destruct (decide (k1 = k1)).
Qed.

(** ** The executor against the backend matrix *)

Lemma run_spec env op args q w :
  exists d,
    run env op args q w =
      let '(acts, r) :=
        measure env op (cur_trial w) args (mx_default w)
          (enabled_backends args) in
      let w1 := set_mx_default d (record acts w) in
      match r with
      | Raise e => Raised e w1
      | Ok inner =>
          let times := fragment_of op inner in
          match q with
          | None => Done (Some times) w1
          | Some _ =>
              Done None (log (Put times) (set_queue (queue w ++ [times]) w1))
          end
      end.
Proof.
  unfold run, enabled_backends, fragment_of, label.
  generalize (type_name op +:+ " / " +:+ args_str op); intros l.
  destruct w, env as [[] ? ? ?], args as [[] [] [] [] []], q;
    cbn -[setitem2 setitem];
    unfold mbind, M_bind, mret, M_ret, call_run, mx_set_default_device,
      modify, queue_put, raise;
    cbn -[setitem2 setitem];
    repeat (match goal with
            | |- context [op_run ?o ?j ?a ?k] => destruct (op_run o j a k)
            end; cbn -[setitem2 setitem]);
    rewrite ?setitem2_nil, ?setitem2_single;
    eexists; reflexivity.
Qed.

Lemma record_eq acts w :
  record acts w =
    {| queue := queue w; mx_default := mx_default w; cur_op := cur_op w;
       cur_trial := cur_trial w; spawned := spawned w; alive := alive w;
       pbar := pbar w;
       history := history w ++
         (step_at (cur_op w) (cur_trial w) (alive w) (queue w) <$> acts);
       reports := reports w |}.
Proof.
  revert w. induction acts as [|a acts IH]; intros w.
  - destruct w; simpl. by rewrite app_nil_r.
  - unfold record in *. simpl. rewrite IH. simpl.
    by rewrite <- app_assoc.
Qed.

Lemma collect_loop inner op_times w :
  for_each inner
    (fun '(backend, time) op_times =>
       let op_times := append_item op_times backend time in
       modify (log (Append backend time
                      (default [] (getitem op_times backend))));;
       mret op_times)
    op_times w
  = Done (collect op_times inner) (record (appends op_times inner) w).
Proof.
  revert op_times w. induction inner as [|[b t] inner IH]; intros ot w.
  - reflexivity.
  - cbn [for_each appends]. unfold mbind, M_bind, modify at 1. simpl.
    unfold mret at 1, M_ret at 1. rewrite IH. reflexivity.
Qed.

#[local] Arguments for_each : simpl never.
#[local] Arguments collect : simpl never.

Lemma join_only (p : nat) : filter (fun x => x <> p) [p] = [].
Proof. rewrite filter_cons. by rewrite decide_False by (intros H; by apply H). Qed.

Lemma trial_spec env op args q st w :
  queue w = [] -> alive w = [] ->
  st.1 = samples env op args (cur_trial w) ->
  let steps :=
    trial_steps env op args (cur_op w) (cur_trial w) (spawned w) in
  match snd (measure env op (cur_trial w) args None (enabled_backends args)) with
  | Ok (x :: inner) =>
      trial env op args q st w =
        Done (collect st.1 (x :: inner), Some (label op))
          (advance (cur_op w) (cur_trial w) 1 steps w)
  | Ok [] =>
      exists w', trial env op args q st w
                 = Raised (IndexError "list index out of range") w'
        /\ history w' = history w ++ steps /\ reports w' = reports w
  | Raise _ =>
      exists w', trial env op args q st w = Blocked w'
        /\ history w' = history w ++ steps /\ reports w' = reports w
  end.
Proof.
  intros Hq Ha Hst steps. subst steps. unfold trial_steps.
  destruct st as [op_times nm]. destruct w; simpl in *; subst.
  destruct (measure env op cur_trial0 args None (enabled_backends args))
    as [acts r] eqn:Hm.
  assert (Hrun : forall w1, cur_trial w1 = cur_trial0 -> mx_default w1 = None ->
            exists d, run env op args (Some q) w1 =
              let w2 := set_mx_default d (record acts w1) in
              match r with
              | Raise e => Raised e w2
              | Ok inner =>
                  Done None (log (Put (fragment_of op inner))
                    (set_queue (queue w1 ++ [fragment_of op inner]) w2))
              end).
  { intros w1 Hj Hd. destruct (run_spec env op args (Some q) w1) as [d Hd'].
    exists d. rewrite Hd', Hj, Hd, Hm. done. }
  simpl.
  destruct r as [[|x inner]|e]; unfold trial;
    (unfold mbind at 1, M_bind at 1, mp_Process at 1; simpl;
     unfold mbind at 1, M_bind at 1, mbind at 1, M_bind at 1, p_start at 1;
     match goal with
     | |- context [run env op args (Some q) ?w1] =>
         destruct (Hrun w1 eq_refl eq_refl) as [d Hd]; rewrite Hd;
         clear Hd Hrun
     end;
     simpl; rewrite record_eq; simpl).
  - eexists; split; [reflexivity|]. simpl. rewrite join_only.
    split; [|done]. rewrite <- !app_assoc. done.
  - unfold mbind, M_bind. simpl.
    rewrite (collect_loop (x :: inner)). rewrite record_eq. simpl.
    rewrite join_only. destruct x as [b t].
    unfold advance, log, set_pbar; simpl. f_equal. f_equal; [lia|lia|].
    rewrite <- !app_assoc. simpl. rewrite <- ?app_assoc. reflexivity.
  - eexists; split; [reflexivity|]. simpl.
    split; [|done]. rewrite <- !app_assoc. done.
Qed.

(** ** The loop over the trials of one operation *)

Lemma for_each_cons {A S : Type} (x : A) l (body : A -> S -> M S) s w :
  for_each (x :: l) body s w =
    match body x s w with
    | Done s' w' => for_each l body s' w'
    | Raised e w' => Raised e w'
    | Blocked w' => Blocked w'
    end.
Proof. reflexivity. Qed.

Lemma samples_S env op args n :
  samples env op args (S n)
    = collect (samples env op args n) (got env op args n).
Proof. unfold samples. by rewrite seq_S, foldl_app. Qed.

Lemma trials_spec env op args q i p0 m :
  forall a st w,
    queue w = [] -> alive w = [] -> spawned w = p0 + a ->
    st.1 = samples env op args a ->
    let f := trial_status env op args in
    let r :=
      for_each (seq a m)
        (fun j st => modify (set_cursor i j);; trial env op args q st) st w in
    history (final r)
      = history w ++
        (executed f (seq a m) ≫= fun j => trial_steps env op args i j (p0 + j))
    /\ reports (final r) = reports w
    /\ status r = loop_status f (seq a m)
    /\ forall st' w', r = Done st' w' ->
         st' = (foldl (fun ot j => collect ot (got env op args j)) st.1 (seq a m),
                match m with 0 => st.2 | S _ => Some (label op) end)
         /\ queue w' = [] /\ alive w' = [] /\ spawned w' = p0 + a + m.
Proof.
  induction m as [|m IH]; intros a st w Hq Ha Hs Hsm f r.
  - subst r. cbn [seq executed loop_status]. simpl.
    rewrite app_nil_r. split_and!; try done.
    intros st' w' [= <- <-]. destruct st; simpl. split_and!; try done. lia.
  - subst r. cbn [seq executed loop_status]. rewrite for_each_cons.
    cbv beta.
    change ((modify (set_cursor i a) ≫= fun _ => trial env op args q st) w)
      with (trial env op args q st (set_cursor i a w)).
    pose proof (trial_spec env op args q st (set_cursor i a w) Hq Ha Hsm) as Ht.
    simpl in Ht. rewrite Hs in Ht. subst f.
    unfold trial_status at 1 3, fragment.
    destruct (snd (measure env op a args None (enabled_backends args)))
      as [[|x inner]|e] eqn:Hf.
    + destruct Ht as (w' & -> & Hh & Hr). simpl.
      rewrite Hh, app_nil_r. split_and!; try done.
    + rewrite Ht.
      match goal with
      | |- context [for_each _ _ ?st1 ?w1] =>
          destruct (IH (S a) st1 w1) as (Hh & Hr & Hst & Hd);
            [done | done | simpl; lia
            | simpl; rewrite samples_S, Hsm; unfold got, fragment;
              by rewrite Hf |]
      end.
      rewrite Hh, Hr, Hst. simpl. rewrite <- app_assoc.
      split_and!; try done.
      intros st' w' Hdone. apply Hd in Hdone as (-> & ? & ? & ?).
      split_and!; try done; [|lia].
      simpl. unfold got at 3, fragment. rewrite Hf. by destruct m.
    + destruct Ht as (w' & -> & Hh & Hr). simpl.
      rewrite Hh, app_nil_r. split_and!; try done.
Qed.

(** ** The loop over the catalogue *)

Lemma per_op_eq env args n q i op all_times w :
  per_op env args n q (i, op) all_times w =
    match
      for_each (seq 0 n)
        (fun j st => modify (set_cursor i j);; trial env op args q st)
        ([], None) w
    with
    | Done st w' =>
        Done (setitem all_times st.2
                ((fun '(k, v) => (k, np_mean env v)) <$> st.1)) w'
    | Raised e w' => Raised e w'
    | Blocked w' => Blocked w'
    end.
Proof.
  unfold per_op, mbind, M_bind.
  by destruct (for_each (seq 0 n) _ ([], None) w) as [[??]?|??|?].
Qed.

Lemma per_op_spec env args n q P i op all_times w :
  queue w = [] -> alive w = [] -> spawned w = P + i * n ->
  let r := per_op env args n q (i, op) all_times w in
  history (final r) = history w ++ op_steps env args n P (i, op)
  /\ reports (final r) = reports w
  /\ status r = op_status env args n (i, op)
  /\ forall at' w', r = Done at' w' ->
       at' = store env args n all_times op
       /\ queue w' = [] /\ alive w' = [] /\ spawned w' = P + S i * n.
Proof.
  intros Hq Ha Hs r. subst r. rewrite per_op_eq.
  unfold op_steps, op_status. cbn [fst snd].
  destruct (trials_spec env op args q i (P + i * n) n 0 ([], None) w)
    as (Hh & Hr & Hst & Hd); [done | done | lia | done |].
  destruct (for_each (seq 0 n) _ ([], None) w) as [[ot nm] w'|e w'|w'];
    simpl in *; split_and!; try done.
  intros at' w'' [= <- <-].
  destruct (Hd _ _ eq_refl) as ([= -> ->] & ? & ? & ?).
  split_and!; try done; lia.
Qed.

Lemma ops_spec env args n q P ops :
  forall i0 all_times w,
    queue w = [] -> alive w = [] -> spawned w = P + i0 * n ->
    let l := imap (fun i op => (i + i0, op)) ops in
    let r := for_each l (per_op env args n q) all_times w in
    history (final r)
      = history w ++ (executed (op_status env args n) l ≫= op_steps env args n P)
    /\ reports (final r) = reports w
    /\ status r = loop_status (op_status env args n) l
    /\ forall at' w', r = Done at' w' ->
         at' = foldl (store env args n) all_times ops
         /\ queue w' = [] /\ alive w' = [].
Proof.
  induction ops as [|op ops IH]; intros i0 all_times w Hq Ha Hs l r.
  - subst l r. simpl. rewrite app_nil_r. split_and!; try done.
    by intros at' w' [= <- <-].
  - subst l r. rewrite imap_cons. cbn [executed loop_status].
    rewrite for_each_cons.
    destruct (per_op_spec env args n q P i0 op all_times w Hq Ha Hs)
      as (Hh & Hr & Hst & Hd).
    change (0 + i0) with i0. rewrite <- Hst.
    destruct (per_op env args n q (i0, op) all_times w)
      as [at1 w1|e w1|w1]; simpl in *.
    + destruct (Hd _ _ eq_refl) as (-> & Hq1 & Ha1 & Hs1).
      rewrite (imap_ext _ (fun i op => (i + S i0, op)))
        by (intros; simpl; f_equal; lia).
      destruct (IH (S i0) (store env args n all_times op) w1 Hq1 Ha1 Hs1)
        as (Hh' & Hr' & Hst' & Hd').
      rewrite Hh', Hr', Hst', Hh, Hr, <- app_assoc. split_and!; try done.
    + rewrite Hh, app_nil_r. split_and!; try done.
    + rewrite Hh, app_nil_r. split_and!; try done.
Qed.

(** ** The orchestrator as a whole *)

Lemma run_processes_eq env ops args n w :
  run_processes env ops args n w =
    match
      for_each (imap pair ops) (per_op env args n result_queue) []
        (set_pbar 0 (set_queue [] w))
    with
    | Done a w' => Done tt (add_report (a, true) (add_report (a, false) w'))
    | Raised e w' => Raised e w'
    | Blocked w' => Blocked w'
    end.
Proof.
  unfold run_processes, mbind, M_bind, mp_Queue, modify, print_benchmark.
  by destruct (for_each _ _ _ _).
Qed.

Lemma run_processes_spec env ops args n w :
  alive w = [] ->
  let r := run_processes env ops args n w in
  history (final r) = history w ++ run_steps env ops args n (spawned w)
  /\ status r = run_status env ops args n
  /\ reports (final r) =
       reports w ++
       match run_status env ops args n with
       | SDone => [(aggregated env ops args n, false);
                   (aggregated env ops args n, true)]
       | _ => []
       end.
Proof.
  intros Ha r. subst r. rewrite run_processes_eq.
  unfold run_steps, run_status.
  rewrite (imap_ext pair (fun i op => (i + 0, op)))
    by (intros; simpl; f_equal; lia).
  match goal with
  | |- context [for_each _ _ ?a0 ?w1] =>
      destruct (ops_spec env args n result_queue (spawned w) ops 0 a0 w1)
        as (Hh & Hr & Hst & Hd); [done | done | simpl; lia |]
  end.
  simpl in Hh, Hr, Hst. rewrite <- Hst.
  destruct (for_each _ _ _ _) as [at1 w1|e w1|w1]; simpl in *.
  - destruct (Hd _ _ eq_refl) as (-> & _ & _). rewrite Hh, Hr.
    by rewrite <- app_assoc.
  - by rewrite Hh, Hr, app_nil_r.
  - by rewrite Hh, Hr, app_nil_r.
Qed.

(** ** The reference executor [measure] *)

Section measure_facts.
Context (env : Env) (op : Operation) (j : nat) (args : Args)
        (entry : option MxDevice).

Lemma invocations_app l1 l2 :
  invocations (l1 ++ l2) = invocations l1 ++ invocations l2.
Proof. apply omap_app. Qed.

Lemma invocations_pre (b : Backend) :
  invocations (match select b with Some d => [SetDevice d] | None => [] end)
    = [].
Proof. by destruct (select b). Qed.

Lemma measure_ok bs acts inner :
  measure env op j args entry bs = (acts, Ok inner) ->
  Forall2 (fun b kv => kv.1 = key b /\ answer op j args entry b = Ok kv.2)
    bs inner
  /\ invocations acts = invocation args entry <$> bs
  /\ acts = bs ≫= actions_of args entry.
Proof.
  revert acts inner. induction bs as [|b bs' IH]; intros acts inner; simpl.
  - intros [= <- <-]. by split_and!; [constructor| |].
  - destruct (bool_decide _ && negb _); [done|].
    destruct (op_run op j _ _) as [t|e] eqn:Ht; [|done].
    destruct (measure env op j args entry bs') as [acts' [inner'|e]];
      [|done].
    intros [= <- <-]. destruct (IH _ _ eq_refl) as (HF & Hc & Ha).
    split_and!; [by constructor| |].
    + rewrite invocations_app, invocations_pre. simpl. by rewrite Hc.
    + unfold actions_of at 1. rewrite <- app_assoc. simpl. by rewrite Ha.
Qed.

Lemma measure_raise bs acts e :
  measure env op j args entry bs = (acts, Raise e) ->
  exists l1 b0 l2,
    bs = l1 ++ b0 :: l2
    /\ Forall (fun b => exists t, answer op j args entry b = Ok t) l1
    /\ ((answer op j args entry b0 = Raise e
         /\ invocations acts = invocation args entry <$> (l1 ++ [b0]))
        \/ (e = NameError "mx" /\ mx_bound env = false
            /\ is_Some (select b0)
            /\ invocations acts = invocation args entry <$> l1)).
Proof.
  revert acts. induction bs as [|b bs' IH]; intros acts; simpl; [done|].
  destruct (bool_decide _ && negb _) eqn:Hmx.
  - intros [= <- <-]. exists [], b, bs'. split_and!; [done|constructor|].
    right. apply andb_true_iff in Hmx as [H1 H2].
    apply bool_decide_eq_true in H1. apply negb_true_iff in H2. done.
  - destruct (op_run op j _ _) as [t|e'] eqn:Ht.
    + destruct (measure env op j args entry bs') as [acts' [inner'|e']];
        [done|].
      intros [= <- <-].
      destruct (IH _ eq_refl) as (l1 & b0 & l2 & -> & HF & Hcase).
      exists (b :: l1), b0, l2. split_and!; [done|constructor; eauto|].
      rewrite invocations_app, invocations_pre. simpl.
      destruct Hcase as [[? ->]|(? & ? & ? & ->)]; [left|right]; done.
    + intros [= <- <-]. exists [], b, bs'.
      split_and!; [done|constructor|]. left. split; [done|].
      by rewrite invocations_app, invocations_pre.
Qed.

Lemma measure_total bs :
  Forall (fun b => (select b = None \/ mx_bound env = true)
                   /\ exists t, answer op j args entry b = Ok t) bs ->
  exists acts inner, measure env op j args entry bs = (acts, Ok inner).
Proof.
  induction 1 as [|b bs' [Hsel [t Ht]] _ (acts & inner & IH)]; simpl;
    [by eauto|].
  assert (bool_decide (is_Some (select b)) && negb (mx_bound env) = false)
    as ->.
  { destruct Hsel as [->| ->]; [|by rewrite andb_false_r].
    rewrite bool_decide_eq_false_2; [done|]. by intros [? [=]]. }
  unfold answer in Ht. rewrite Ht, IH. eauto.
Qed.

Lemma measure_child_actions bs :
  Forall (fun a => match a with SetDevice _ | OpRun _ _ => True | _ => False end)
    (measure env op j args entry bs).1.
Proof.
  induction bs as [|b bs' IH]; simpl; [constructor|].
  destruct (bool_decide _ && negb _); [constructor|].
  assert (Forall (fun a => match a with SetDevice _ | OpRun _ _ => True | _ => False end)
            (match select b with Some d => [SetDevice d] | None => [] end))
    as Hpre by (destruct (select b); repeat constructor).
  destruct (op_run op j _ _) as [t|e].
  - destruct (measure env op j args entry bs') as [acts' r]; simpl in *.
    apply Forall_app. split; [done|]. by constructor.
  - simpl. apply Forall_app. split; [done|]. by repeat constructor.
Qed.
End measure_facts.

(** ** What a call of the executor does, in terms of [measure] *)

Lemma logged_app {A : Type} (w : World) (r : Res A) steps :
  history (final r) = history w ++ steps -> logged w r = act <$> steps.
Proof. intros H. unfold logged. by rewrite H, drop_app_length. Qed.

Lemma act_step_at i j al qu (acts : list Action) :
  act <$> (step_at i j al qu <$> acts) = acts.
Proof. rewrite <- list_fmap_compose. by rewrite list_fmap_id. Qed.

Lemma run_ok env op args q w acts inner :
  measure env op (cur_trial w) args (mx_default w) (enabled_backends args)
    = (acts, Ok inner) ->
  let times := fragment_of op inner in
  exists w',
    run env op args q w
      = Done (match q with None => Some times | Some _ => None end) w'
    /\ delivered (run env op args q w) = Some times
    /\ queue w' = match q with
                  | None => queue w
                  | Some _ => queue w ++ [times]
                  end
    /\ logged w (run env op args q w)
       = acts ++ match q with None => [] | Some _ => [Put times] end.
Proof.
  intros Hm times. destruct (run_spec env op args q w) as [d Hr].
  rewrite Hm in Hr. cbv zeta in Hr. fold times in Hr. rewrite record_eq in Hr.
  destruct q as [q|]; rewrite Hr; eexists; (split; [reflexivity|]); simpl.
  - rewrite last_snoc. split_and!; try done.
    erewrite logged_app; [|simpl; by rewrite <- app_assoc].
    by rewrite fmap_app, act_step_at.
  - split_and!; try done.
    erewrite logged_app; [|simpl; done].
    by rewrite act_step_at, app_nil_r.
Qed.

Lemma run_raise env op args q w acts e :
  measure env op (cur_trial w) args (mx_default w) (enabled_backends args)
    = (acts, Raise e) ->
  exists w',
    run env op args q w = Raised e w'
    /\ queue w' = queue w
    /\ logged w (run env op args q w) = acts.
Proof.
  intros Hm. destruct (run_spec env op args q w) as [d Hr].
  rewrite Hm in Hr. cbv zeta in Hr. rewrite record_eq in Hr.
  rewrite Hr; eexists; (split; [reflexivity|]); simpl. split; [done|].
  erewrite logged_app; [|simpl; done]. by rewrite act_step_at.
Qed.

Lemma delivered_inv env op args q w times :
  delivered (run env op args q w) = Some times ->
  exists acts inner,
    measure env op (cur_trial w) args (mx_default w) (enabled_backends args)
      = (acts, Ok inner)
    /\ times = fragment_of op inner.
Proof.
  destruct (measure env op (cur_trial w) args (mx_default w)
              (enabled_backends args)) as [acts [inner|e]] eqn:Hm.
  - destruct (run_ok env op args q w acts inner Hm) as (w' & _ & -> & _).
    intros [= <-]. eauto.
  - destruct (run_raise env op args q w acts e Hm) as (w' & -> & _). done.
Qed.

Lemma backend_keys_fragment op inner :
  backend_keys (fragment_of op inner) = inner.*1.
Proof.
  destruct inner as [|x inner]; [done|].
  unfold backend_keys, fragment_of. simpl. by rewrite app_nil_r.
Qed.

Lemma recorded_keys op j args entry (bs : list Backend) inner :
  Forall2 (fun b kv => kv.1 = key b /\ answer op j args entry b = Ok kv.2)
    bs inner ->
  inner.*1 = key <$> bs.
Proof.
  induction 1 as [|b kv bs' inner' [Hk _] _ IH]; [done|].
  rewrite !fmap_cons. by rewrite Hk, IH.
Qed.

Lemma filter_keys_sublist (f : Backend -> bool) (l : list Backend) :
  (key <$> List.filter f l) `sublist_of` (key <$> l).
Proof.
  induction l as [|b l IH]; simpl; [done|].
  destruct (f b); simpl; by constructor.
Qed.

(** ** The single-iteration executor *)

(** C2.  When the executor hands over a fragment, its backend keys are
    exactly those the flags enable: [mlx_gpu] iff [include_mlx];
    [mlx_gpu_compile] iff [include_mlx] and [compile]; [mlx_cpu] iff
    [include_mlx] and [include_cpu]; [cpu] iff [include_cpu]; [mps] iff
    [include_mps]; [cuda] iff [include_cuda]; no other key occurs.  The
    keys were inserted, and the calls of the operation's [run] were made,
    in the fixed order of the backend matrix, each after its device
    selection. *)
Theorem executor_backend_keys env op args q w times :
  delivered (run env op args q w) = Some times ->
  ("mlx_gpu" ∈ backend_keys times <-> include_mlx args = true)
  /\ ("mlx_gpu_compile" ∈ backend_keys times
      <-> include_mlx args && compile args = true)
  /\ ("mlx_cpu" ∈ backend_keys times
      <-> include_mlx args && include_cpu args = true)
  /\ ("cpu" ∈ backend_keys times <-> include_cpu args = true)
  /\ ("mps" ∈ backend_keys times <-> include_mps args = true)
  /\ ("cuda" ∈ backend_keys times <-> include_cuda args = true)
  /\ backend_keys times `sublist_of`
       ["mlx_gpu"; "mlx_gpu_compile"; "mlx_cpu"; "cpu"; "mps"; "cuda"]
  /\ backend_keys times = key <$> enabled_backends args
  /\ logged w (run env op args q w)
       = (enabled_backends args ≫= actions_of args (mx_default w))
         ++ match q with None => [] | Some _ => [Put times] end.
Proof.
  intros Hd. destruct (delivered_inv _ _ _ _ _ _ Hd) as (acts & inner & Hm & ->).
  destruct (measure_ok _ _ _ _ _ _ _ _ Hm) as (HF & _ & Hacts).
  rewrite backend_keys_fragment, (recorded_keys _ _ _ _ _ _ HF).
  assert (Hkeys : forall k (b : bool),
            bool_decide (k ∈ key <$> enabled_backends args) = b ->
            k ∈ key <$> enabled_backends args <-> b = true)
    by (intros k b <-; by rewrite bool_decide_eq_true).
  split_and!.
  1-6: apply Hkeys; by destruct args as [[] [] [] [] []].
  - apply (filter_keys_sublist (fun b => enabled b args) matrix).
  - done.
  - destruct (run_ok env op args q w acts inner Hm) as (w' & _ & _ & _ & ->).
    by rewrite Hacts.
Qed.

Lemma executor_backend_keys_witness :
  delivered (run full_env matmul everything (Some result_queue) init_world)
    = Some matmul_fragment
  /\ ("mlx_gpu" ∈ backend_keys matmul_fragment <-> include_mlx everything = true)
  /\ ("mlx_gpu_compile" ∈ backend_keys matmul_fragment
      <-> include_mlx everything && compile everything = true)
  /\ ("mlx_cpu" ∈ backend_keys matmul_fragment
      <-> include_mlx everything && include_cpu everything = true)
  /\ ("cpu" ∈ backend_keys matmul_fragment <-> include_cpu everything = true)
  /\ ("mps" ∈ backend_keys matmul_fragment <-> include_mps everything = true)
  /\ ("cuda" ∈ backend_keys matmul_fragment <-> include_cuda everything = true)
  /\ backend_keys matmul_fragment `sublist_of`
       ["mlx_gpu"; "mlx_gpu_compile"; "mlx_cpu"; "cpu"; "mps"; "cuda"]
  /\ backend_keys matmul_fragment = key <$> enabled_backends everything
  /\ logged init_world
       (run full_env matmul everything (Some result_queue) init_world)
       = (enabled_backends everything ≫= actions_of everything None)
         ++ [Put matmul_fragment].
Proof.
  split; [reflexivity|].
  apply (executor_backend_keys full_env matmul everything (Some result_queue)
           init_world matmul_fragment).
  reflexivity.
Defined.

(** The claim C3 as stated fails: with no backend enabled the executor
    returns the empty mapping, which has no entry for the label. *)
Lemma executor_single_entry_counterexample :
  ~ (forall env op args q w times,
       delivered (run env op args q w) = Some times ->
       exists inner, times = [(label op, inner)]).
Proof.
  intros H.
  destruct (H full_env matmul nothing None init_world [] eq_refl) as [inner [=]].
Qed.

(** C3, amended.  When at least one of the mlx, CPU, MPS and CUDA backends
    is enabled, the fragment the executor hands over has exactly one entry;
    its key is the label [type_name + " / " + args_str] and its value maps
    the enabled backend keys, in order, to the durations the operation
    returned.  With none of them enabled the fragment is empty. *)
Theorem executor_single_entry env op args q w times :
  delivered (run env op args q w) = Some times ->
  (include_mlx args || include_cpu args || include_mps args
     || include_cuda args = true ->
   exists inner,
     times = [(type_name op +:+ " / " +:+ args_str op, inner)]
     /\ inner <> []
     /\ Forall2
          (fun b kv =>
             kv.1 = key b
             /\ answer op (cur_trial w) args (mx_default w) b = Ok kv.2)
          (enabled_backends args) inner)
  /\ (include_mlx args || include_cpu args || include_mps args
       || include_cuda args = false ->
      times = []).
Proof.
  intros Hd. destruct (delivered_inv _ _ _ _ _ _ Hd) as (acts & inner & Hm & ->).
  destruct (measure_ok _ _ _ _ _ _ _ _ Hm) as (HF & _ & _).
  split; intros Hflags.
  - exists inner. split_and!; [|
      |done].
    + destruct inner as [|x inner]; [|done].
      apply Forall2_nil_inv_r in HF.
      by destruct args as [[] [] [] [] []].
    + intros ->. apply Forall2_nil_inv_r in HF.
      by destruct args as [[] [] [] [] []].
  - assert (enabled_backends args = []) as Hnil
      by (by destruct args as [[] [] [] [] []]).
    rewrite Hnil in HF. by apply Forall2_nil_inv_l in HF as ->.
Qed.

Lemma executor_single_entry_witness :
  delivered (run full_env matmul only_cpu None init_world)
    = Some [("MatMul / 32x1x1000 x 32x1000x128", [("cpu", 0.01%float)])]
  /\ exists inner,
       [("MatMul / 32x1x1000 x 32x1000x128", [("cpu", 0.01%float)])]
         = [(type_name matmul +:+ " / " +:+ args_str matmul, inner)]
       /\ inner <> []
       /\ Forall2
            (fun b kv =>
               kv.1 = key b /\ answer matmul 0 only_cpu None b = Ok kv.2)
            (enabled_backends only_cpu) inner.
Proof.
  split; [reflexivity|].
  apply (executor_single_entry full_env matmul only_cpu None init_world);
    reflexivity.
Defined.

(** C8.  Called without a result channel the executor returns the
    fragment and leaves the queue as it was, logging no [put]; called with
    the channel it returns [None] and puts that same fragment, once, as its
    last action.  The fragment is the one measured: it has the single
    entry of the operation's label (no entry when no backend is enabled),
    which maps the key of each enabled backend, in order, to the duration
    the operation's [run] returned for it, and [run] was invoked once for
    each of them.  Both calls fail together, with the same exception, that
    of an enabled invocation or of the unbound [mx], and an untouched
    queue; the call returns whenever mlx can be reached if needed and
    every enabled invocation returns. *)
Theorem executor_result_channel env op args w q :
  match run env op args None w, run env op args (Some q) w with
  | Done r1 w1, Done r2 w2 =>
      exists times inner,
        r1 = Some times /\ queue w1 = queue w
        /\ Forall (fun a => forall m, a <> Put m)
             (logged w (run env op args None w))
        /\ r2 = None /\ queue w2 = queue w ++ [times]
        /\ logged w (run env op args (Some q) w)
             = logged w (run env op args None w) ++ [Put times]
        /\ times = match inner with
                   | [] => []
                   | _ => [(type_name op +:+ " / " +:+ args_str op, inner)]
                   end
        /\ Forall2
             (fun b kv =>
                kv.1 = key b
                /\ answer op (cur_trial w) args (mx_default w) b = Ok kv.2)
             (enabled_backends args) inner
        /\ invocations (logged w (run env op args None w))
           = invocation args (mx_default w) <$> enabled_backends args
  | Raised e1 w1, Raised e2 w2 =>
      e1 = e2 /\ queue w1 = queue w /\ queue w2 = queue w
      /\ exists b, b ∈ enabled_backends args
           /\ (answer op (cur_trial w) args (mx_default w) b = Raise e1
               \/ (e1 = NameError "mx" /\ mx_bound env = false))
  | _, _ => False
  end
  /\ (Forall (fun b => (select b = None \/ mx_bound env = true)
                       /\ exists t,
                            answer op (cur_trial w) args (mx_default w) b
                              = Ok t)
        (enabled_backends args) ->
      status (run env op args None w) = SDone
      /\ status (run env op args (Some q) w) = SDone).
Proof.
  destruct (measure env op (cur_trial w) args (mx_default w)
              (enabled_backends args)) as [acts [inner|e]] eqn:Hm.
  - destruct (run_ok env op args None w acts inner Hm)
      as (w1 & H1 & _ & Hq1 & Hl1).
    destruct (run_ok env op args (Some q) w acts inner Hm)
      as (w2 & H2 & _ & Hq2 & Hl2).
    rewrite app_nil_r in Hl1.
    rewrite Hl1, Hl2, H1, H2. simpl. split; [|done].
    destruct (measure_ok _ _ _ _ _ _ _ _ Hm) as (HF & Hinv & _).
    exists (fragment_of op inner), inner. split_and!; try done.
    pose proof (measure_child_actions env op (cur_trial w) args (mx_default w)
                  (enabled_backends args)) as Hc.
    rewrite Hm in Hc. simpl in Hc.
    eapply Forall_impl; [exact Hc|]. by intros [] ? ?.
  - destruct (run_raise env op args None w acts e Hm) as (w1 & H1 & Hq1 & _).
    destruct (run_raise env op args (Some q) w acts e Hm)
      as (w2 & H2 & Hq2 & _).
    rewrite H1, H2. split.
    + split_and!; try done.
      apply measure_raise in Hm
        as (l1 & b0 & l2 & Hl & _ & [[Ha _]|(-> & He & _)]);
        exists b0; (split; [rewrite Hl; apply elem_of_app; right; by left|]);
        [by left|by right].
    + intros HF. apply (measure_total env op) in HF as (? & ? & HF).
      congruence.
Qed.

Lemma executor_result_channel_witness :
  match run full_env matmul only_cpu None init_world,
        run full_env matmul only_cpu (Some result_queue) init_world with
  | Done r1 w1, Done r2 w2 =>
      exists times inner,
        r1 = Some times /\ queue w1 = queue init_world
        /\ Forall (fun a => forall m, a <> Put m)
             (logged init_world (run full_env matmul only_cpu None init_world))
        /\ r2 = None /\ queue w2 = queue init_world ++ [times]
        /\ logged init_world
             (run full_env matmul only_cpu (Some result_queue) init_world)
             = logged init_world
                 (run full_env matmul only_cpu None init_world)
               ++ [Put times]
        /\ times = match inner with
                   | [] => []
                   | _ => [(type_name matmul +:+ " / " +:+ args_str matmul,
                            inner)]
                   end
        /\ Forall2
             (fun b kv =>
                kv.1 = key b
                /\ answer matmul (cur_trial init_world) only_cpu
                     (mx_default init_world) b = Ok kv.2)
             (enabled_backends only_cpu) inner
        /\ invocations
             (logged init_world (run full_env matmul only_cpu None init_world))
           = invocation only_cpu (mx_default init_world)
               <$> enabled_backends only_cpu
  | Raised e1 w1, Raised e2 w2 =>
      e1 = e2 /\ queue w1 = queue init_world /\ queue w2 = queue init_world
      /\ exists b, b ∈ enabled_backends only_cpu
           /\ (answer matmul (cur_trial init_world) only_cpu
                 (mx_default init_world) b = Raise e1
               \/ (e1 = NameError "mx" /\ mx_bound full_env = false))
  | _, _ => False
  end
  /\ status (run full_env matmul only_cpu None init_world) = SDone
  /\ status (run full_env matmul only_cpu (Some result_queue) init_world)
      = SDone.
Proof.
  destruct (executor_result_channel full_env matmul only_cpu init_world
              result_queue) as [H1 H2].
  split; [exact H1|]. apply H2.
  repeat constructor; by eexists.
Defined.

(** An invocation is never made twice: the invocations of the enabled
    backends are pairwise different. *)
Lemma invocations_NoDup args entry :
  NoDup (invocation args entry <$> enabled_backends args).
Proof.
  destruct args as [[] [] [] [] []], entry as [[]|];
    apply (bool_decide_unpack _); by vm_compute.
Qed.

Lemma run_failure env op args q w b e :
  b ∈ enabled_backends args ->
  answer op (cur_trial w) args (mx_default w) b = Raise e ->
  let r := run env op args q w in
  exists e' w',
    r = Raised e' w' /\ queue w' = queue w
    /\ Forall (fun a => forall m, a <> Put m) (logged w r)
    /\ NoDup (invocations (logged w r))
    /\ exists l1 b0 l2,
         enabled_backends args = l1 ++ b0 :: l2
         /\ Forall (fun b => exists t,
                      answer op (cur_trial w) args (mx_default w) b = Ok t) l1
         /\ ((answer op (cur_trial w) args (mx_default w) b0 = Raise e'
              /\ invocations (logged w r)
                   = invocation args (mx_default w) <$> (l1 ++ [b0]))
             \/ (e' = NameError "mx" /\ mx_bound env = false
                 /\ is_Some (select b0)
                 /\ invocations (logged w r)
                      = invocation args (mx_default w) <$> l1)).
Proof.
  intros Hb He r. subst r.
  destruct (measure env op (cur_trial w) args (mx_default w)
              (enabled_backends args)) as [acts [inner|e']] eqn:Hm.
  - destruct (measure_ok _ _ _ _ _ _ _ _ Hm) as (HF & _ & _).
    apply list_elem_of_lookup in Hb as [i Hi].
    destruct (Forall2_lookup_l _ _ _ _ _ HF Hi) as (kv & _ & _ & Hok).
    congruence.
  - destruct (run_raise env op args q w acts e' Hm) as (w' & Hr & Hq & Hl).
    rewrite Hl, Hr. exists e', w'.
    pose proof (measure_child_actions env op (cur_trial w) args (mx_default w)
                  (enabled_backends args)) as Hc.
    rewrite Hm in Hc. simpl in Hc.
    destruct (measure_raise _ _ _ _ _ _ _ _ Hm)
      as (l1 & b0 & l2 & Hsplit & Hok & Hcase).
    pose proof (invocations_NoDup args (mx_default w)) as Hnd.
    rewrite Hsplit in Hnd.
    split_and!; try done.
    + eapply Forall_impl; [exact Hc|]. by intros [] ? ?.
    + destruct Hcase as [[_ ->]|(_ & _ & _ & ->)].
      * rewrite (cons_middle b0), app_assoc, fmap_app in Hnd.
        by apply NoDup_app in Hnd as [? _].
      * rewrite fmap_app in Hnd. by apply NoDup_app in Hnd as [? _].
    + exists l1, b0, l2. done.
Qed.

(** ** The start-up checks *)

Lemma main_checks_pass env ops args w :
  (include_cuda args = true -> cuda_is_available env = true) ->
  (include_mps args = true -> mps_is_available env = true) ->
  main env ops args w = run_processes env ops args 5 w.
Proof.
  intros Hc Hm. unfold main, assert_.
  destruct (include_cuda args); [rewrite Hc by done|];
    (destruct (include_mps args); [rewrite Hm by done|]); reflexivity.
Qed.

(** C7.  When CUDA is requested but unavailable, or MPS is requested but
    unavailable, the script fails with an [AssertionError] carrying the
    message of the failed check; the world is left as it was: no process
    object was created, nothing was started, run or logged. *)
Theorem startup_precheck env ops args w :
  (include_cuda args = true /\ cuda_is_available env = false)
  \/ (include_mps args = true /\ mps_is_available env = false) ->
  let msg :=
    if include_cuda args && negb (cuda_is_available env)
    then "CUDA device not found." else "MPS backend not available." in
  main env ops args w = Raised (AssertionError msg) w
  /\ logged w (main env ops args w) = []
  /\ spawned (final (main env ops args w)) = spawned w
  /\ alive (final (main env ops args w)) = alive w.
Proof.
  intros H msg.
  assert (main env ops args w = Raised (AssertionError msg) w) as ->.
  { subst msg. unfold main, assert_.
    destruct H as [[-> ->]|[-> ->]]; [done|].
    by destruct (include_cuda args), (cuda_is_available env). }
  split_and!; try done. unfold logged. simpl. by rewrite drop_all.
Qed.

Lemma startup_precheck_witness :
  main no_cuda_env [matmul]
    {| include_cpu := true; include_mps := true; include_mlx := true;
       include_cuda := true; compile := true |} init_world
    = Raised (AssertionError "CUDA device not found.") init_world
  /\ logged init_world (main no_cuda_env [matmul] everything init_world) = []
  /\ spawned (final (main no_cuda_env [matmul] everything init_world))
      = spawned init_world
  /\ alive (final (main no_cuda_env [matmul] everything init_world))
      = alive init_world.
Proof.
  apply (startup_precheck no_cuda_env [matmul] everything init_world).
  left. split; reflexivity.
Defined.

(** ** Loops that stop at the first failure *)

Section loops.
Context {A : Type} (f : A -> Status).

Lemma executed_prefix l : executed f l `prefix_of` l.
Proof.
  induction l as [|x l IH]; simpl; [done|].
  destruct (f x); [by apply prefix_cons|..];
    by apply (prefix_cons x [] l), prefix_nil.
Qed.

Lemma executed_subseteq l x : x ∈ executed f l -> x ∈ l.
Proof.
  destruct (executed_prefix l) as [k Hk]. rewrite Hk at 2.
  intros. apply elem_of_app. by left.
Qed.

Lemma loop_status_done l :
  loop_status f l = SDone <-> Forall (fun x => f x = SDone) l.
Proof.
  induction l as [|x l IH]; simpl; [by split; [constructor|]|].
  rewrite Forall_cons, <- IH.
  destruct (f x); split; try done; by intros [? ?].
Qed.

Lemma executed_done l : loop_status f l = SDone -> executed f l = l.
Proof.
  induction l as [|x l IH]; simpl; [done|].
  destruct (f x); [|done..]. intros H. by rewrite IH.
Qed.

(** Whatever is run before something else has ended normally. *)
Lemma executed_before l l1 x l2 :
  executed f l = l1 ++ x :: l2 -> Forall (fun y => f y = SDone) l1.
Proof.
  revert l1. induction l as [|a l IH]; intros l1; simpl.
  - by destruct l1.
  - destruct (f a) eqn:Ha.
    + destruct l1 as [|a' l1]; [constructor|].
      intros [= <- H]. constructor; [done|]. by apply IH.
    + destruct l1 as [|a' [|? l1]]; first [by constructor | done].
    + destruct l1 as [|a' [|? l1]]; first [by constructor | done].
Qed.

(** A loop that does not end normally stops at its last element. *)
Lemma executed_stopped l :
  loop_status f l <> SDone ->
  exists l1 x, executed f l = l1 ++ [x] /\ f x = loop_status f l.
Proof.
  induction l as [|a l IH]; simpl; [done|].
  destruct (f a) eqn:Ha.
  - intros H. destruct (IH H) as (l1 & x & -> & Hx).
    by exists (a :: l1), x.
  - intros _. by exists [], a.
  - intros _. by exists [], a.
Qed.
End loops.

(** ** Lists built by [bind] *)

Lemma sorted_bind {A B : Type} (Rk : relation A) (R : relation B)
    (seg : A -> list B) (l : list A) :
  StronglySorted Rk l ->
  (forall x, x ∈ l -> StronglySorted R (seg x)) ->
  (forall x y, x ∈ l -> y ∈ l -> Rk x y ->
     forall a b, a ∈ seg x -> b ∈ seg y -> R a b) ->
  StronglySorted R (l ≫= seg).
Proof.
  induction 1 as [|x l Hl IH Hx]; intros Hseg Hcross; [constructor|].
  rewrite bind_cons. apply StronglySorted_app. split_and!.
  - intros a b Ha Hb. apply list_elem_of_bind in Hb as (y & Hb & Hy).
    apply (Hcross x y); [by left|by right| |done|done].
    rewrite Forall_forall in Hx. by apply Hx.
  - apply Hseg. by left.
  - apply IH.
    + intros y Hy. apply Hseg. by right.
    + intros y z Hy Hz. apply Hcross; by right.
Qed.

Lemma filter_bind {A B : Type} (P : B -> Prop) `{forall b, Decision (P b)}
    (seg : A -> list B) (l : list A) :
  filter P (l ≫= seg) = l ≫= fun x => filter P (seg x).
Proof.
  induction l as [|x l IH]; [done|].
  by rewrite !bind_cons, filter_app, IH.
Qed.

Lemma filter_all {B : Type} (P : B -> Prop) `{forall b, Decision (P b)}
    (l : list B) :
  Forall P l -> filter P l = l.
Proof.
  induction 1 as [|x l Hx _ IH]; [done|].
  by rewrite filter_cons_True, IH.
Qed.

Lemma filter_none {B : Type} (P : B -> Prop) `{forall b, Decision (P b)}
    (l : list B) :
  Forall (fun x => ~ P x) l -> filter P l = [].
Proof.
  induction 1 as [|x l Hx _ IH]; [done|].
  by rewrite filter_cons_False, IH.
Qed.

(** Picking the segment of the one element with a given key. *)
Lemma bind_select {A B K : Type} `{EqDecision K} (kf : A -> K)
    (g : A -> list B) (l : list A) (k : K) :
  NoDup (kf <$> l) ->
  (l ≫= fun y => if decide (kf y = k) then g y else [])
    = match list_find (fun y => kf y = k) l with
      | Some (_, x) => g x
      | None => []
      end.
Proof.
  induction l as [|y l IH]; [done|].
  rewrite fmap_cons, NoDup_cons. intros [Hy Hl].
  rewrite bind_cons. cbn [list_find]. destruct (decide (kf y = k)) as [<-|Hne].
  - simpl. rewrite (Forall_bind_ext _ (fun _ => []) l).
    + clear. induction l as [|? l IH]; [by rewrite app_nil_r|].
      by rewrite bind_cons.
    + apply Forall_forall. intros z Hz. rewrite decide_False; [done|].
      intros Heq. apply Hy. rewrite <- Heq. by apply list_elem_of_fmap_2.
  - simpl. rewrite IH by done. by destruct (list_find _ l) as [[??]|].
Qed.

(** ** The steps of one trial *)

Lemma trial_steps_eq env op args i j p :
  trial_steps env op args i j p =
    [step_at i j [] [] (Create p); step_at i j [p] [] (Start p)] ++
    (step_at i j [p] [] <$> child_acts env op args j) ++
    match fragment env op args j with
    | Raise e => [step_at i j [p] [] (Crash p e)]
    | Ok inner =>
        [step_at i j [p] [fragment_of op inner] (Put (fragment_of op inner));
         step_at i j [p] [] (Get (fragment_of op inner));
         step_at i j [] [] (Join p)] ++
        match inner with
        | [] => []
        | _ =>
            (step_at i j [] [] <$> appends (samples env op args j) inner) ++
            [step_at i j [] [] Update]
        end
    end.
Proof.
  unfold trial_steps, child_acts, fragment.
  by destruct (measure env op j args None (enabled_backends args)).
Qed.

Lemma appends_kind op_times inner :
  Forall (fun a => match a with Append _ _ _ => True | _ => False end)
    (appends op_times inner).
Proof.
  revert op_times. induction inner as [|[b t] inner IH]; intros ot;
    [constructor|].
  simpl. constructor; [done|apply IH].
Qed.

Lemma child_acts_kind env op args j :
  Forall (fun a => match a with SetDevice _ | OpRun _ _ => True | _ => False end)
    (child_acts env op args j).
Proof. apply measure_child_actions. Qed.

(** A property of every kind of step a trial can log holds of all the
    steps of the trial. *)
Lemma Forall_trial_steps (P : Step -> Prop) env op args i j p :
  P (step_at i j [] [] (Create p)) ->
  P (step_at i j [p] [] (Start p)) ->
  (forall d, P (step_at i j [p] [] (SetDevice d))) ->
  (forall amb kw, P (step_at i j [p] [] (OpRun amb kw))) ->
  (forall m, P (step_at i j [p] [m] (Put m))) ->
  (forall e, P (step_at i j [p] [] (Crash p e))) ->
  (forall m, P (step_at i j [p] [] (Get m))) ->
  P (step_at i j [] [] (Join p)) ->
  (forall b t l, P (step_at i j [] [] (Append b t l))) ->
  P (step_at i j [] [] Update) ->
  Forall P (trial_steps env op args i j p).
Proof.
  intros HC HS HD HR HP HX HG HJ HA HU. rewrite trial_steps_eq.
  repeat (apply Forall_cons; split; [done|]). apply Forall_app. split.
  - apply Forall_fmap.
    eapply Forall_impl; [apply child_acts_kind|]. intros []; simpl; done.
  - destruct (fragment env op args j) as [inner|e].
    + repeat (apply Forall_cons; split; [done|]).
      destruct inner as [|x inner]; [constructor|].
      apply Forall_app. split; [|by repeat constructor].
      apply Forall_fmap.
      eapply Forall_impl; [apply appends_kind|]. intros []; simpl; done.
    + by repeat constructor.
Qed.

Lemma trial_steps_position env op args i j p :
  Forall (fun s => at_op s = i /\ at_trial s = j)
    (trial_steps env op args i j p).
Proof. by apply Forall_trial_steps. Qed.

(** The actions of a trial, without the snapshots. *)
Lemma trial_steps_actions env op args i j p :
  act <$> trial_steps env op args i j p =
    [Create p; Start p] ++ child_acts env op args j ++
    match fragment env op args j with
    | Raise e => [Crash p e]
    | Ok inner =>
        [Put (fragment_of op inner); Get (fragment_of op inner); Join p] ++
        match inner with
        | [] => []
        | _ => appends (samples env op args j) inner ++ [Update]
        end
    end.
Proof.
  rewrite trial_steps_eq. rewrite !fmap_app, act_step_at. simpl.
  do 3 f_equal. destruct (fragment env op args j) as [inner|e]; [|done].
  destruct inner as [|x inner]; [done|].
  rewrite 3!fmap_cons, fmap_app, act_step_at. done.
Qed.

Lemma omap_child_acts {B : Type} (g : Action -> option B) env op args j :
  (forall d, g (SetDevice d) = None) ->
  (forall amb kw, g (OpRun amb kw) = None) ->
  omap g (child_acts env op args j) = [].
Proof.
  intros Hd Hr. pose proof (child_acts_kind env op args j) as H.
  induction H as [|a acts Ha _ IH]; [done|].
  destruct a; try done; simpl; by rewrite ?Hd, ?Hr.
Qed.

Lemma omap_appends {B : Type} (g : Action -> option B) op_times
    (inner : list (string * float)) :
  (forall b t l, g (Append b t l) = None) ->
  omap g (appends op_times inner) = [].
Proof.
  intros Ha. revert op_times.
  induction inner as [|[b t] inner IH]; intros ot; [done|].
  simpl. by rewrite Ha.
Qed.

(** What an observer that ignores the child's calls and the appends sees
    of a trial. *)
Lemma omap_trial_steps {B : Type} (g : Action -> option B) env op args i j p :
  (forall d, g (SetDevice d) = None) ->
  (forall amb kw, g (OpRun amb kw) = None) ->
  (forall b t l, g (Append b t l) = None) ->
  omap g (act <$> trial_steps env op args i j p) =
    omap g
      ([Create p; Start p] ++
       match fragment env op args j with
       | Raise e => [Crash p e]
       | Ok inner =>
           [Put (fragment_of op inner); Get (fragment_of op inner); Join p] ++
           match inner with [] => [] | _ => [Update] end
       end).
Proof.
  intros Hd Hr Ha. rewrite trial_steps_actions, !omap_app.
  rewrite omap_child_acts by done. f_equal.
  destruct (fragment env op args j) as [[|x inner]|e]; try done.
  by rewrite !omap_app, (omap_appends g _ (x :: inner)).
Qed.

Lemma trial_steps_created env op args i j p :
  created (trial_steps env op args i j p) = [p].
Proof.
  unfold created. rewrite omap_trial_steps by done.
  by destruct (fragment env op args j) as [[|x inner]|e].
Qed.

(** ** Dictionaries, continued *)

Section dict_more.
Context {K V : Type} `{EqDecision K}.
Implicit Types (d : list (K * V)) (k : K) (v : V).

Lemma getitem_None d k : getitem d k = None <-> k ∉ keys d.
Proof.
  unfold keys. induction d as [|[k' v'] d IH]; simpl.
  - split; [intros _; apply not_elem_of_nil|done].
  - rewrite not_elem_of_cons, <- IH.
    destruct (decide (k' = k)) as [->|Hne].
    + split; [done|]. by intros [? _].
    + split; [|by intros [_ ?]]. intros ?. split; [congruence|done].
Qed.

Lemma elem_of_keys_setitem d k v k' :
  k' ∈ keys (setitem d k v) <-> k' = k \/ k' ∈ keys d.
Proof.
  unfold keys. induction d as [|[k0 v0] d IH]; simpl.
  - rewrite list_elem_of_singleton. split; [by left|].
    by intros [?|?%elem_of_nil].
  - destruct (decide (k0 = k)) as [->|Hne]; simpl.
    + rewrite !elem_of_cons. tauto.
    + rewrite !elem_of_cons, IH. tauto.
Qed.

Lemma NoDup_keys_setitem d k v :
  NoDup (keys d) -> NoDup (keys (setitem d k v)).
Proof.
  unfold keys. induction d as [|[k0 v0] d IH]; simpl.
  - intros _. apply NoDup_singleton.
  - rewrite NoDup_cons. intros [Hk0 Hd].
    destruct (decide (k0 = k)) as [->|Hne]; simpl.
    + by apply NoDup_cons.
    + apply NoDup_cons. split; [|by apply IH].
      pose proof (elem_of_keys_setitem d k v k0) as Hel.
      unfold keys in Hel. rewrite Hel.
      intros [?|?]; [by apply Hne|by apply Hk0].
Qed.

Lemma getitem_fmap_values {W : Type} (f : V -> W) d k :
  getitem ((fun '(k, v) => (k, f v)) <$> d) k = f <$> getitem d k.
Proof.
  induction d as [|[k' v'] d IH]; simpl; [done|].
  by destruct (decide (k' = k)).
Qed.

Lemma keys_fmap_values {W : Type} (f : V -> W) d :
  keys ((fun '(k, v) => (k, f v)) <$> d) = keys d.
Proof.
  unfold keys. rewrite <- list_fmap_compose. apply list_fmap_ext.
  by intros ? [??].
Qed.
End dict_more.

Section append_facts.
Context {K V : Type} `{EqDecision K}.
Implicit Types (d : list (K * list V)) (k : K) (x : V).

Lemma append_item_eq d k x :
  append_item d k x = setitem d k (default [] (getitem d k) ++ [x]).
Proof.
  unfold append_item, default_getitem.
  destruct (getitem d k) as [l|] eqn:Hg; simpl; [done|].
  induction d as [|[k' v'] d IH]; simpl in *.
  - by rewrite decide_True.
  - destruct (decide (k' = k)) as [->|Hne]; [done|]. simpl.
    rewrite decide_False by done. by rewrite IH.
Qed.

Lemma getitem_append_item d k x :
  getitem (append_item d k x) k = Some (default [] (getitem d k) ++ [x]).
Proof. rewrite append_item_eq. apply getitem_setitem_eq. Qed.

Lemma getitem_append_item_ne d k k' x :
  k <> k' -> getitem (append_item d k x) k' = getitem d k'.
Proof. intros. rewrite append_item_eq. by apply getitem_setitem_ne. Qed.

Lemma NoDup_keys_append_item d k x :
  NoDup (keys d) -> NoDup (keys (append_item d k x)).
Proof. rewrite append_item_eq. apply NoDup_keys_setitem. Qed.
End append_facts.

Lemma collect_cons d k t inner :
  collect d ((k, t) :: inner) = collect (append_item d k t) inner.
Proof. reflexivity. Qed.

Lemma getitem_collect_notin d inner k :
  k ∉ inner.*1 -> getitem (collect d inner) k = getitem d k.
Proof.
  revert d. induction inner as [|[k' t'] inner IH]; intros d; [done|].
  rewrite fmap_cons, not_elem_of_cons. intros [Hne Hk].
  rewrite collect_cons, IH by done. by apply getitem_append_item_ne.
Qed.

Lemma getitem_collect d inner k t :
  NoDup inner.*1 -> (k, t) ∈ inner ->
  getitem (collect d inner) k = Some (default [] (getitem d k) ++ [t]).
Proof.
  revert d. induction inner as [|[k' t'] inner IH]; intros d;
    [by intros _ ?%elem_of_nil|].
  rewrite fmap_cons, NoDup_cons. intros [Hk' Hnd] [Heq|Hin]%elem_of_cons.
  - injection Heq as <- <-.
    rewrite collect_cons, getitem_collect_notin by done.
    apply getitem_append_item.
  - rewrite collect_cons, IH by done.
    rewrite getitem_append_item_ne; [done|].
    intros ->. apply Hk'. apply list_elem_of_fmap. by exists (k, t).
Qed.

Lemma NoDup_keys_collect d inner :
  NoDup (keys d) -> NoDup (keys (collect d inner)).
Proof.
  revert d. induction inner as [|[k t] inner IH]; intros d Hd; [done|].
  rewrite collect_cons. by apply IH, NoDup_keys_append_item.
Qed.

(** The append logged for a pair of a fragment carries the list found
    under the backend before the fragment was folded in, with the sample
    added at its end. *)
Lemma appends_elem op_times (inner : list (string * float)) k t :
  NoDup inner.*1 -> (k, t) ∈ inner ->
  Append k t (default [] (getitem op_times k) ++ [t]) ∈ appends op_times inner.
Proof.
  revert op_times. induction inner as [|[k0 t0] inner IH]; intros ot Hnd Hin.
  - by apply elem_of_nil in Hin.
  - simpl in Hnd. apply NoDup_cons in Hnd as [Hk0 Hnd].
    cbn [appends]. apply elem_of_cons.
    apply elem_of_cons in Hin as [[= -> ->]|Hin].
    + left. by rewrite getitem_append_item.
    + right.
      assert (k0 <> k) as Hne.
      { intros ->. apply Hk0. apply list_elem_of_fmap. by exists (k, t). }
      rewrite <- (getitem_append_item_ne ot k0 k t0) by done. by apply IH.
Qed.

(** ** The samples of an operation *)

Lemma enabled_keys_NoDup args : NoDup (key <$> enabled_backends args).
Proof.
  destruct args as [[] [] [] [] []]; apply (bool_decide_unpack _); by vm_compute.
Qed.

Lemma samples_NoDup env op args n : NoDup (keys (samples env op args n)).
Proof.
  induction n as [|n IH]; [apply NoDup_nil_2|].
  rewrite samples_S. by apply NoDup_keys_collect.
Qed.

(** After [n] trials that ended normally, the list stored under an enabled
    backend holds the [n] durations the operation returned for it, in the
    order of the trials. *)
Lemma samples_lookup env op args n b :
  (forall j, j < n -> trial_status env op args j = SDone) ->
  b ∈ enabled_backends args ->
  exists ts,
    length ts = n
    /\ (forall j, j < n ->
          exists t, ts !! j = Some t /\ answer op j args None b = Ok t)
    /\ default [] (getitem (samples env op args n) (key b)) = ts
    /\ (0 < n -> getitem (samples env op args n) (key b) = Some ts).
Proof.
  intros Hdone Hb. induction n as [|n IH].
  - exists []. split_and!; try done; lia.
  - destruct IH as (ts & Hlen & Hts & Hdef & _); [intros; apply Hdone; lia|].
    specialize (Hdone n (Nat.lt_succ_diag_r n)).
    unfold trial_status, fragment in Hdone.
    destruct (measure env op n args None (enabled_backends args))
      as [acts [[|x inner]|e]] eqn:Hm; try done. clear Hdone.
    destruct (measure_ok _ _ _ _ _ _ _ _ Hm) as (HF & _ & _).
    assert (got env op args n = x :: inner) as Hgot
      by (unfold got, fragment; by rewrite Hm).
    pose proof Hb as [k Hk]%list_elem_of_lookup.
    destruct (Forall2_lookup_l _ _ _ _ _ HF Hk) as ([kk t] & Hkv & Hkey & Ht).
    simpl in *. subst kk.
    assert (getitem (samples env op args (S n)) (key b) = Some (ts ++ [t]))
      as Hget.
    { rewrite samples_S, Hgot.
      rewrite (getitem_collect _ _ (key b) t); [by rewrite Hdef| |].
      - rewrite (recorded_keys _ _ _ _ _ _ HF). apply enabled_keys_NoDup.
      - by eapply list_elem_of_lookup_2. }
    exists (ts ++ [t]). split_and!.
    + rewrite length_app. simpl. lia.
    + intros j Hj. destruct (decide (j < n)) as [Hlt|Hge].
      * destruct (Hts j Hlt) as (t' & ? & ?). exists t'.
        split; [by apply lookup_app_l_Some|done].
      * assert (j = n) as -> by lia. exists t. split; [|done].
        rewrite lookup_app_r, Hlen by lia. by rewrite Nat.sub_diag.
    + by rewrite Hget.
    + done.
Qed.

(** The entry the fold of line 53 leaves under the key of an operation
    that no later operation shares. *)
(** ** The operations and trials that are run *)

Lemma indexed_sorted {A : Type} (kf : A -> nat) (c : nat) (l : list A) :
  (forall a x, l !! a = Some x -> kf x = c + a) ->
  StronglySorted (fun x y => kf x < kf y) l.
Proof.
  revert c. induction l as [|x l IH]; intros c Hl; constructor.
  - apply (IH (S c)). intros a y Hy. rewrite (Hl (S a) y Hy). lia.
  - apply Forall_forall. intros y Hy.
    apply list_elem_of_lookup in Hy as [a Hy].
    rewrite (Hl 0 x eq_refl), (Hl (S a) y Hy). lia.
Qed.

Lemma indexed_keys {A : Type} (kf : A -> nat) (c : nat) (l : list A) :
  (forall a x, l !! a = Some x -> kf x = c + a) ->
  kf <$> l = seq c (length l).
Proof.
  revert c. induction l as [|x l IH]; intros c Hl; [done|].
  simpl. rewrite (Hl 0 x eq_refl), Nat.add_0_r. f_equal.
  apply IH. intros a y Hy. rewrite (Hl (S a) y Hy). lia.
Qed.

Section run_structure.
Context (env : Env) (ops : list Operation) (args : Args) (n P : nat).

Let ops_run := executed (op_status env args n) (imap pair ops).
Let trials_run (op : Operation) :=
  executed (trial_status env op args) (seq 0 n).

Lemma ops_run_lookup a x :
  ops_run !! a = Some x -> exists op, x = (a, op) /\ ops !! a = Some op.
Proof.
  intros H.
  apply (prefix_lookup_Some _ (imap pair ops)) in H;
    [|apply executed_prefix].
  rewrite list_lookup_imap in H.
  destruct (ops !! a) as [op|]; [|done]. injection H as <-. eauto.
Qed.

Lemma ops_run_elem x :
  x ∈ ops_run -> exists i op, x = (i, op) /\ ops !! i = Some op.
Proof.
  intros [a Ha]%list_elem_of_lookup.
  destruct (ops_run_lookup a x Ha) as (op & -> & ?). eauto.
Qed.

Lemma trials_run_lookup op a j : trials_run op !! a = Some j -> j = a /\ a < n.
Proof.
  intros H.
  apply (prefix_lookup_Some _ (seq 0 n)) in H; [|apply executed_prefix].
  by apply lookup_seq in H.
Qed.

Lemma trials_run_elem op j : j ∈ trials_run op -> j < n.
Proof.
  intros [a Ha]%list_elem_of_lookup.
  by destruct (trials_run_lookup op a j Ha) as [-> ?].
Qed.

Lemma run_steps_unfold :
  run_steps env ops args n P =
    ops_run ≫= fun iop =>
      trials_run iop.2 ≫= fun j =>
        trial_steps env iop.2 args iop.1 j (P + iop.1 * n + j).
Proof. reflexivity. Qed.

(** A property of the steps of every trial of the catalogue holds of
    every step of a run. *)
Lemma Forall_run_steps (Q : Step -> Prop) :
  (forall i op j, ops !! i = Some op -> j < n ->
     Forall Q (trial_steps env op args i j (P + i * n + j))) ->
  Forall Q (run_steps env ops args n P).
Proof.
  intros H. rewrite run_steps_unfold. apply Forall_bind, Forall_forall.
  intros x (i & op & -> & Hi)%ops_run_elem.
  apply Forall_bind, Forall_forall. intros j Hj%trials_run_elem.
  by apply H.
Qed.

Lemma op_steps_position i op :
  Forall (fun s => at_op s = i /\ at_trial s < n)
    (op_steps env args n P (i, op)).
Proof.
  apply Forall_bind, Forall_forall. intros j Hj%trials_run_elem. simpl.
  eapply Forall_impl; [apply trial_steps_position|].
  intros s [-> ->]. done.
Qed.

Lemma segment_sorted (l : list Step) i j :
  Forall (fun s => at_op s = i /\ at_trial s = j) l ->
  StronglySorted not_after l.
Proof.
  induction 1 as [|s l [Hi Hj] Hl IH]; constructor; [done|].
  eapply Forall_impl; [exact Hl|]. intros s' [Hi' Hj'].
  right. split; congruence || lia.
Qed.

Lemma op_steps_sorted i op :
  StronglySorted not_after (op_steps env args n P (i, op)).
Proof.
  apply (sorted_bind lt).
  - apply (indexed_sorted id 0). intros a j Hj.
    by destruct (trials_run_lookup op a j Hj) as [-> _].
  - intros j _. eapply segment_sorted, trial_steps_position.
  - intros j j' _ _ Hlt a b Ha Hb.
    pose proof (trial_steps_position env op args i j (P + i * n + j)) as H1.
    pose proof (trial_steps_position env op args i j' (P + i * n + j')) as H2.
    rewrite Forall_forall in H1, H2.
    destruct (H1 a Ha) as [? ?], (H2 b Hb) as [? ?].
    right. simpl in *. split; [congruence|lia].
Qed.

Lemma run_steps_sorted :
  StronglySorted not_after (run_steps env ops args n P).
Proof.
  apply (sorted_bind (fun x y => x.1 < y.1)).
  - apply (indexed_sorted fst 0). intros a x Hx.
    by destruct (ops_run_lookup a x Hx) as (op & -> & _).
  - intros [i op] _. apply op_steps_sorted.
  - intros [i op] [i' op'] _ _ Hlt a b Ha Hb. simpl in Hlt.
    pose proof (op_steps_position i op) as H1.
    pose proof (op_steps_position i' op') as H2.
    rewrite Forall_forall in H1, H2.
    destruct (H1 a Ha) as [? ?], (H2 b Hb) as [? ?].
    left. lia.
Qed.

Lemma sorted_lookup {A : Type} (R : relation A) (l : list A) a b x y :
  StronglySorted R l -> a < b -> l !! a = Some x -> l !! b = Some y -> R x y.
Proof.
  intros Hl. revert a b. induction Hl as [|z l Hl IH Hz]; intros a b Hab Ha Hb.
  - done.
  - destruct b as [|b]; [lia|]. destruct a as [|a].
    + injection Ha as <-. rewrite Forall_forall in Hz. apply Hz.
      by eapply list_elem_of_lookup_2.
    + apply (IH a b); [lia|done|done].
Qed.

(** The steps logged at one loop position are those of its trial, when
    the trial was started at all. *)
Lemma steps_at_trial i j i' j' p op :
  steps_at (trial_steps env op args i' j' p) i j =
    if decide (i' = i /\ j' = j) then trial_steps env op args i' j' p else [].
Proof.
  unfold steps_at. pose proof (trial_steps_position env op args i' j' p) as H.
  destruct (decide (i' = i /\ j' = j)) as [[<- <-]|Hne].
  - by apply filter_all.
  - apply filter_none. eapply Forall_impl; [exact H|].
    intros s [<- <-] [? ?]. by apply Hne.
Qed.

Lemma steps_at_op i j i' op :
  steps_at (op_steps env args n P (i', op)) i j =
    if decide ((i', op).1 = i)
    then trials_run op ≫= fun j' =>
           if decide (id j' = j)
           then trial_steps env op args i j (P + i * n + j) else []
    else [].
Proof.
  unfold steps_at, op_steps. simpl. destruct (decide (i' = i)) as [<-|Hne].
  - rewrite filter_bind. apply list_bind_ext; [|done]. intros j'.
    fold (steps_at (trial_steps env op args i' j' (P + i' * n + j')) i' j).
    rewrite steps_at_trial. unfold id.
    destruct (decide (j' = j)) as [<-|?].
    + by rewrite decide_True.
    + rewrite decide_False; [done|]. by intros [_ ?].
  - apply filter_none. eapply Forall_impl; [apply op_steps_position|].
    intros s [<- _] [? _]. by apply Hne.
Qed.

Lemma steps_at_run i j :
  steps_at (run_steps env ops args n P) i j = []
  \/ exists op,
       ops !! i = Some op /\ j < n /\ (i, op) ∈ ops_run
       /\ j ∈ trials_run op
       /\ steps_at (run_steps env ops args n P) i j
          = trial_steps env op args i j (P + i * n + j).
Proof.
  unfold steps_at at 1 2. rewrite run_steps_unfold, filter_bind.
  rewrite (list_bind_ext _
             (fun x => if decide (x.1 = i)
                       then trials_run x.2 ≫= fun j' =>
                              if decide (id j' = j)
                              then trial_steps env x.2 args i j (P + i * n + j)
                              else []
                       else []) ops_run ops_run); [| |done].
  2:{ intros [i' op]. apply steps_at_op. }
  rewrite (bind_select fst).
  2:{ rewrite (indexed_keys fst 0); [apply NoDup_seq|].
      intros a x Hx. by destruct (ops_run_lookup a x Hx) as (op & -> & _). }
  destruct (list_find _ ops_run) as [[a x]|] eqn:Hfind; [|by left].
  apply list_find_Some in Hfind as (Hx & Hi & _).
  destruct (ops_run_lookup a x Hx) as (op & -> & Hop). simpl in Hi. subst a.
  simpl. rewrite (bind_select id).
  2:{ rewrite (indexed_keys id 0); [apply NoDup_seq|].
      intros a x Hx'. by destruct (trials_run_lookup op a x Hx') as [-> _]. }
  destruct (list_find _ (trials_run op)) as [[a j']|] eqn:Hfind; [|by left].
  apply list_find_Some in Hfind as (Hj' & Hj & _). unfold id in Hj. subst j'.
  right. exists op. split_and!; try done.
  - destruct (trials_run_lookup op a j Hj') as [-> ?]. done.
  - by eapply list_elem_of_lookup_2.
  - by eapply list_elem_of_lookup_2.
Qed.

(** Operations before one that is run have had all their trials. *)
Lemma earlier_op_done i' op' i op :
  (i', op') ∈ ops_run -> i < i' -> ops !! i = Some op ->
  (i, op) ∈ ops_run /\ op_status env args n (i, op) = SDone.
Proof.
  intros (l1 & l2 & Hsplit)%list_elem_of_split Hlt Hop.
  pose proof (executed_before _ _ _ _ _ Hsplit) as Hdone.
  assert (i' = length l1) as ->.
  { destruct (ops_run_lookup (length l1) (i', op')) as (? & [= -> _] & _);
      [|done].
    fold ops_run in Hsplit. rewrite Hsplit.
    by rewrite list_lookup_middle. }
  destruct (lookup_lt_is_Some_2 l1 i Hlt) as [x Hx].
  assert (ops_run !! i = Some x) as Hx'.
  { fold ops_run in Hsplit. rewrite Hsplit. by apply lookup_app_l_Some. }
  destruct (ops_run_lookup i x Hx') as (op'' & -> & Hop'').
  assert (op'' = op) as -> by congruence.
  split; [by eapply list_elem_of_lookup_2|].
  rewrite Forall_forall in Hdone. apply Hdone.
  by eapply list_elem_of_lookup_2.
Qed.

Lemma op_done_trials i op :
  op_status env args n (i, op) = SDone ->
  trials_run op = seq 0 n
  /\ forall j, j < n -> trial_status env op args j = SDone.
Proof.
  unfold op_status. simpl. intros H. split; [by apply executed_done|].
  apply loop_status_done in H. rewrite Forall_forall in H.
  intros j Hj. apply H, elem_of_seq. lia.
Qed.

Lemma segment_in_run i op j s :
  (i, op) ∈ ops_run -> j ∈ trials_run op ->
  s ∈ trial_steps env op args i j (P + i * n + j) ->
  s ∈ run_steps env ops args n P.
Proof.
  intros Hi Hj Hs. rewrite run_steps_unfold.
  apply list_elem_of_bind. exists (i, op). split; [|done].
  apply list_elem_of_bind. by exists j.
Qed.

Lemma step_in_run s :
  s ∈ run_steps env ops args n P ->
  exists op,
    (at_op s, op) ∈ ops_run /\ at_trial s ∈ trials_run op
    /\ ops !! at_op s = Some op /\ at_trial s < n
    /\ s ∈ trial_steps env op args (at_op s) (at_trial s)
           (P + at_op s * n + at_trial s).
Proof.
  rewrite run_steps_unfold.
  intros ([i op] & (j & Hs & Hj)%list_elem_of_bind & Hi)%list_elem_of_bind.
  simpl in *.
  pose proof (trial_steps_position env op args i j (P + i * n + j)) as Hp.
  rewrite Forall_forall in Hp. destruct (Hp s Hs) as [-> ->].
  destruct (ops_run_elem _ Hi) as (? & ? & [= <- <-] & ?).
  exists op. split_and!; try done. by eapply trials_run_elem.
Qed.

Lemma run_done :
  run_status env ops args n = SDone ->
  forall i op, ops !! i = Some op ->
    (i, op) ∈ ops_run /\ op_status env args n (i, op) = SDone.
Proof.
  intros H i op Hop.
  assert ((i, op) ∈ imap pair ops) as Hin
    by (by apply (elem_of_lookup_imap_2 pair ops op i)).
  split.
  - unfold ops_run. by rewrite (executed_done _ _ H).
  - apply loop_status_done in H. rewrite Forall_forall in H. by apply H.
Qed.

Lemma created_app h1 h2 : created (h1 ++ h2) = created h1 ++ created h2.
Proof. unfold created. by rewrite fmap_app, omap_app. Qed.

Lemma created_bind {A : Type} (f : A -> list Step) (l : list A) :
  created (l ≫= f) = l ≫= fun x => created (f x).
Proof.
  induction l as [|x l IH]; [done|].
  by rewrite !bind_cons, created_app, IH.
Qed.

Lemma bind_singleton_fmap {A B : Type} (f : A -> B) (l : list A) :
  (l ≫= fun x => [f x]) = f <$> l.
Proof. induction l as [|x l IH]; [done|]. by rewrite bind_cons, IH. Qed.

Lemma created_op_steps i op :
  created (op_steps env args n P (i, op))
    = seq (P + i * n) (length (trials_run op)).
Proof.
  unfold op_steps. rewrite created_bind. simpl.
  rewrite (list_bind_ext _ (fun j => [P + i * n + j]) _ (trials_run op));
    [|intros; apply trial_steps_created|done].
  rewrite bind_singleton_fmap. apply indexed_keys.
  intros a j Hj. by destruct (trials_run_lookup op a j Hj) as [-> _].
Qed.

Lemma created_full_ops c (l : list (nat * Operation)) :
  (forall a x, l !! a = Some x -> x.1 = c + a) ->
  Forall (fun x => op_status env args n x = SDone) l ->
  created (l ≫= op_steps env args n P) = seq (P + c * n) (length l * n).
Proof.
  revert c. induction l as [|[i op] l IH]; intros c Hl Hdone; [done|].
  apply Forall_cons in Hdone as [Hop Hdone].
  rewrite bind_cons, created_app, created_op_steps.
  destruct (op_done_trials i op Hop) as [-> _]. rewrite length_seq.
  rewrite (IH (S c)); [|intros a y Hy; rewrite (Hl (S a) y Hy); lia|done].
  pose proof (Hl 0 (i, op) eq_refl) as Hi. simpl in Hi. subst i.
  rewrite Nat.add_0_r. simpl. rewrite seq_app. do 2 f_equal. lia.
Qed.

(** The process objects are created with the numbers [P], [P + 1], ... in
    this order; a run that completes creates one per trial. *)
Lemma created_run_steps :
  exists k,
    created (run_steps env ops args n P) = seq P k
    /\ (run_status env ops args n = SDone -> k = length ops * n).
Proof.
  assert (run_status env ops args n = SDone
          \/ run_status env ops args n <> SDone) as [Hd|Hnd]
    by (destruct (run_status env ops args n); first [by left | by right]).
  - exists (length ops * n). split; [|done].
    unfold run_steps. rewrite (executed_done _ _ Hd).
    rewrite (created_full_ops 0).
    + by rewrite Nat.add_0_r, length_imap.
    + intros a x Hx. rewrite list_lookup_imap in Hx.
      destruct (ops !! a); [|done]. by injection Hx as <-.
    + by apply loop_status_done.
  - destruct (executed_stopped _ _ Hnd) as (l1 & x & Hrun & _).
    pose proof (executed_before _ _ _ _ _ Hrun) as Hdone.
    exists (length l1 * n + length (trials_run x.2)). split; [|done].
    unfold run_steps. rewrite Hrun, bind_app, created_app.
    assert (forall a y, (l1 ++ [x]) !! a = Some y -> y.1 = a) as Hidx.
    { intros a y Hy. fold ops_run in Hrun. rewrite <- Hrun in Hy.
      by destruct (ops_run_lookup a y Hy) as (? & -> & _). }
    rewrite (created_full_ops 0); [| |done].
    2:{ intros a y Hy. apply Hidx. by apply lookup_app_l_Some. }
    rewrite bind_singleton. destruct x as [i op].
    rewrite created_op_steps.
    assert (i = length l1) as ->.
    { rewrite <- (Hidx (length l1) (i, op)); [done|].
      by rewrite list_lookup_middle. }
    rewrite Nat.add_0_r. simpl. by rewrite seq_app.
Qed.

Lemma earlier_trial_done op j' j :
  j' ∈ trials_run op -> j < j' ->
  j ∈ trials_run op /\ trial_status env op args j = SDone.
Proof.
  intros (l1 & l2 & Hsplit)%list_elem_of_split Hlt.
  change (executed (trial_status env op args) (seq 0 n) = l1 ++ j' :: l2)
    in Hsplit.
  pose proof (executed_before _ _ _ _ _ Hsplit) as Hdone.
  assert (j' = length l1) as ->.
  { destruct (trials_run_lookup op (length l1) j') as [-> _]; [|done].
    change (trials_run op) with (executed (trial_status env op args) (seq 0 n)).
    rewrite Hsplit. by rewrite list_lookup_middle. }
  destruct (lookup_lt_is_Some_2 l1 j Hlt) as [x Hx].
  assert (trials_run op !! j = Some x) as Hx'.
  { change (trials_run op) with (executed (trial_status env op args) (seq 0 n)).
    rewrite Hsplit. by apply lookup_app_l_Some. }
  destruct (trials_run_lookup op j x Hx') as [-> _].
  split; [by eapply list_elem_of_lookup_2|].
  rewrite Forall_forall in Hdone. apply Hdone.
  by eapply list_elem_of_lookup_2.
Qed.

(** In a sorted log, a step of an earlier loop position comes first. *)
Lemma earlier_position_first h k s u :
  StronglySorted not_after h ->
  h !! k = Some s -> u ∈ h ->
  at_op u < at_op s \/ (at_op u = at_op s /\ at_trial u < at_trial s) ->
  exists ku, ku < k /\ h !! ku = Some u.
Proof.
  intros Hsorted Hs [ku Hu]%list_elem_of_lookup Hlt.
  exists ku. split; [|done].
  destruct (decide (ku < k)) as [|Hge]; [done|].
  destruct (decide (ku = k)) as [->|Hne].
  - assert (u = s) as -> by congruence. lia.
  - assert (k < ku) as Hk by lia.
    pose proof (sorted_lookup _ _ _ _ _ _ Hsorted Hk Hs Hu) as [?|[? ?]]; lia.
Qed.

(** A trial that ends normally has logged the update of the progress
    bar. *)
Lemma trial_update_step i j p op :
  trial_status env op args j = SDone ->
  step_at i j [] [] Update ∈ trial_steps env op args i j p.
Proof.
  unfold trial_status. intros Hst. rewrite trial_steps_eq.
  destruct (fragment env op args j) as [[|x inner]|e]; try done.
  do 4 (apply elem_of_app; right). by apply list_elem_of_singleton.
Qed.

(** A trial that ends normally after earlier trials that ended normally
    has logged, for every enabled backend, an append of the duration the
    operation returned, after which the list under the backend holds the
    durations of the trials so far, in their order. *)
Lemma trial_append_steps i j p op :
  (forall j', j' <= j -> trial_status env op args j' = SDone) ->
  forall b, b ∈ enabled_backends args ->
    exists ts t,
      length ts = j
      /\ (forall j', j' < j ->
            exists t', ts !! j' = Some t' /\ answer op j' args None b = Ok t')
      /\ answer op j args None b = Ok t
      /\ step_at i j [] [] (Append (key b) t (ts ++ [t]))
           ∈ trial_steps env op args i j p.
Proof.
  intros Hdone b Hbe.
  destruct (samples_lookup env op args j b) as (ts & Hlen & Hts & Hdef & _);
    [intros; apply Hdone; lia | done |].
  specialize (Hdone j (Nat.le_refl j)). unfold trial_status in Hdone.
  rewrite trial_steps_eq.
  pose proof (measure_ok env op j args None (enabled_backends args)
                (child_acts env op args j)) as Hok.
  unfold child_acts, fragment in *.
  destruct (measure env op j args None (enabled_backends args))
    as [acts [[|x inner]|e]]; try done.
  destruct (Hok _ eq_refl) as (HF & _ & _). clear Hok.
  cbn [fst snd].
  pose proof Hbe as [k Hb]%list_elem_of_lookup.
  destruct (Forall2_lookup_l _ _ _ _ _ HF Hb) as ([kk t] & Hkv & Hk & Ht).
  cbn [fst snd] in *. subst kk. exists ts, t. split_and!; try done.
  do 3 (apply elem_of_app; right). apply elem_of_app; left.
  apply list_elem_of_fmap.
  exists (Append (key b) t (ts ++ [t])). split; [done|].
  rewrite <- Hdef. apply appends_elem.
  - rewrite (recorded_keys _ _ _ _ _ _ HF). apply enabled_keys_NoDup.
  - by eapply list_elem_of_lookup_2.
Qed.
End run_structure.

Lemma executed_failed {A : Type} (f : A -> Status) (l : list A) (x : A) :
  x ∈ executed f l -> f x <> SDone -> loop_status f l = f x.
Proof.
  induction l as [|a l IH]; simpl; [by intros ?%elem_of_nil|].
  destruct (f a) eqn:Ha.
  - intros [->|Hx]%elem_of_cons Hne; [done|by apply IH].
  - intros ->%list_elem_of_singleton _. done.
  - intros ->%list_elem_of_singleton _. done.
Qed.

Lemma history_init env ops args n :
  history (final (run_processes env ops args n init_world))
    = run_steps env ops args n 0
  /\ status (run_processes env ops args n init_world)
     = run_status env ops args n.
Proof.
  destruct (run_processes_spec env ops args n init_world eq_refl)
    as (Hh & Hs & _).
  by rewrite Hh, Hs.
Qed.

(** Every trial of a loop position before that of a logged step has ended
    normally and all its steps are in the log. *)
Lemma earlier_trial_complete env ops args n P s i j op :
  s ∈ run_steps env ops args n P ->
  ops !! i = Some op -> j < n ->
  i < at_op s \/ (i = at_op s /\ j < at_trial s) ->
  trial_status env op args j = SDone
  /\ forall u, u ∈ trial_steps env op args i j (P + i * n + j) ->
       u ∈ run_steps env ops args n P.
Proof.
  intros Hs Hop Hj Hlt.
  destruct (step_in_run env ops args n P s Hs)
    as (op' & Hin' & Htr' & Hop' & Hj' & _).
  assert ((i, op) ∈ executed (op_status env args n) (imap pair ops)
          /\ j ∈ executed (trial_status env op args) (seq 0 n)
          /\ trial_status env op args j = SDone) as (Hin & Htr & Hdone).
  { destruct Hlt as [Hlt|[-> Hlt]].
    - destruct (earlier_op_done env ops args n _ _ _ _ Hin' Hlt Hop)
        as [Hin Hst].
      destruct (op_done_trials env args n i op Hst) as [Hall Hd].
      split_and!; [done| |by apply Hd].
      rewrite Hall. apply elem_of_seq. lia.
    - assert (op' = op) as -> by congruence.
      destruct (earlier_trial_done env args n _ _ _ Htr' Hlt) as [? ?].
      done. }
  split; [done|]. intros u Hu. by eapply segment_in_run.
Qed.

(** ** The orchestrator: order of the trials *)

(** C4.  Along the log of any run the loop positions never go back: a
    step of a later operation, or of a later trial of the same operation,
    never precedes a step of an earlier one.  Whenever a step of some loop
    position is logged, every trial of every earlier position has been
    completed before it: for each enabled backend its sample was appended
    to the list that [op_times] holds under the backend, which then held
    the samples of that operation's trials so far, in their order, and
    the progress bar was advanced.  A run that completes has completed
    every trial of every operation of the catalogue. *)
Theorem trials_in_catalogue_order env ops args n :
  let r := run_processes env ops args n init_world in
  let h := history (final r) in
  (forall a b s1 s2,
     a < b -> h !! a = Some s1 -> h !! b = Some s2 -> not_after s1 s2)
  /\ (forall s, s ∈ h -> at_op s < length ops /\ at_trial s < n)
  /\ (forall k s i j op,
        h !! k = Some s -> ops !! i = Some op -> j < n ->
        i < at_op s \/ (i = at_op s /\ j < at_trial s) ->
        (exists ku, ku < k /\ h !! ku = Some (step_at i j [] [] Update))
        /\ forall b, b ∈ enabled_backends args ->
             exists ka ts t,
               ka < k
               /\ length ts = j
               /\ (forall j', j' < j ->
                     exists t', ts !! j' = Some t'
                                /\ answer op j' args None b = Ok t')
               /\ answer op j args None b = Ok t
               /\ h !! ka
                  = Some (step_at i j [] [] (Append (key b) t (ts ++ [t]))))
  /\ (status r = SDone ->
      forall i op j, ops !! i = Some op -> j < n ->
        step_at i j [] [] Update ∈ h).
Proof.
  intros r h. subst r h. destruct (history_init env ops args n) as [-> ->].
  pose proof (run_steps_sorted env ops args n 0) as Hsorted.
  split_and!.
  - intros a b s1 s2. by apply sorted_lookup.
  - intros s Hs.
    destruct (step_in_run env ops args n 0 s Hs) as (op & _ & _ & Hop & ? & _).
    split; [by eapply lookup_lt_Some|done].
  - intros k s i j op Hs Hop Hj Hlt.
    assert (s ∈ run_steps env ops args n 0) as Hin0
      by by eapply list_elem_of_lookup_2.
    destruct (earlier_trial_complete env ops args n 0 s i j op)
      as [Hdone Hin]; [done..|].
    split.
    + apply (earlier_position_first _ _ s); [done|done| |simpl; lia].
      by apply Hin, trial_update_step.
    + intros b Hbe.
      destruct (trial_append_steps env args i j (0 + i * n + j) op)
        with (b := b) as (ts & t & Hlen & Hts & Ht & Hstep); [|done|].
      { intros j' Hj'.
        destruct (earlier_trial_complete env ops args n 0 s i j' op)
          as [Hd' _]; [done|done|lia| |done].
        destruct Hlt as [?|[? ?]]; [by left|right; split; [done|lia]]. }
      destruct (earlier_position_first _ k s
                  (step_at i j [] [] (Append (key b) t (ts ++ [t]))) Hsorted Hs)
        as (ka & ? & ?); [by apply Hin|simpl; lia|].
      by exists ka, ts, t.
  - intros Hd i op j Hop Hj.
    destruct (run_done env ops args n Hd i op Hop) as [Hin Hst].
    destruct (op_done_trials env args n i op Hst) as [Hall Hdone].
    eapply segment_in_run; [done| |by apply trial_update_step, Hdone].
    rewrite Hall. apply elem_of_seq. lia.
Qed.

Lemma trials_in_catalogue_order_witness :
  let h :=
    history (final (run_processes full_env [matmul; relu_first] only_cpu 2
                      init_world)) in
  (exists ku, ku < 16 /\ h !! ku = Some (step_at 0 1 [] [] Update))
  /\ forall b, b ∈ enabled_backends only_cpu ->
       exists ka ts t,
         ka < 16
         /\ length ts = 1
         /\ (forall j', j' < 1 ->
               exists t', ts !! j' = Some t'
                          /\ answer matmul j' only_cpu None b = Ok t')
         /\ answer matmul 1 only_cpu None b = Ok t
         /\ h !! ka
            = Some (step_at 0 1 [] [] (Append (key b) t (ts ++ [t]))).
Proof.
  destruct (trials_in_catalogue_order full_env [matmul; relu_first] only_cpu 2)
    as (_ & _ & H & _).
  apply (H 16 (step_at 1 0 [] [] (Create 2)) 0 1 matmul).
  - reflexivity.
  - reflexivity.
  - lia.
  - left. simpl. lia.
Defined.

(** ** The orchestrator: one execution context at a time *)

(** C5.  At every step of every run at most one process is alive.  A
    process object is created only while none is alive and the queue is
    empty, so the previous one has been joined and its result taken;
    starting it makes it the only one alive; the child's calls, its put and
    the parent's get happen while exactly that process is alive; after the
    join none is.  The processes are numbered 0, 1, 2, ... as they are
    created, hence all different, and the steps of a trial that is started
    begin with the creation and the start of its own process; a run that
    completes has created one process per trial. *)
Theorem one_context_at_a_time env ops args n :
  let r := run_processes env ops args n init_world in
  let h := history (final r) in
  Forall context_discipline h
  /\ (exists k, created h = seq 0 k
               /\ (status r = SDone -> k = length ops * n))
  /\ (forall i j,
        steps_at h i j = []
        \/ exists rest,
             steps_at h i j
               = step_at i j [] [] (Create (i * n + j))
                 :: step_at i j [i * n + j] [] (Start (i * n + j)) :: rest
             /\ created rest = []).
Proof.
  intros r h. subst r h. destruct (history_init env ops args n) as [-> ->].
  split_and!.
  - apply Forall_run_steps. intros i op j _ _.
    apply Forall_trial_steps; unfold context_discipline; simpl;
      intros; (split; [lia|]); eauto.
  - apply created_run_steps.
  - intros i j. destruct (steps_at_run env ops args n 0 i j)
      as [->|(op & _ & _ & _ & _ & ->)]; [by left|right].
    rewrite trial_steps_eq. simpl. eexists. split; [reflexivity|].
    pose proof (trial_steps_created env op args i j (i * n + j)) as Hc.
    rewrite trial_steps_eq in Hc. unfold created in *. simpl in Hc.
    by injection Hc.
Qed.

Lemma one_context_at_a_time_witness :
  exists k,
    created (history (final (run_processes full_env [matmul; relu_first]
                               only_cpu 2 init_world))) = seq 0 k
    /\ k = length [matmul; relu_first] * 2.
Proof.
  destruct (one_context_at_a_time full_env [matmul; relu_first] only_cpu 2)
    as (_ & (k & Hk & Hdone) & _).
  exists k. split; [exact Hk|]. apply Hdone. reflexivity.
Defined.

(** ** The orchestrator: the result channel *)

(** The steps of a trial that was started are those of [trial_steps]. *)
Lemma steps_at_started env ops args n P i j op :
  (i, op) ∈ executed (op_status env args n) (imap pair ops) ->
  j ∈ executed (trial_status env op args) (seq 0 n) ->
  steps_at (run_steps env ops args n P) i j
    = trial_steps env op args i j (P + i * n + j).
Proof.
  intros Hi Hj.
  destruct (steps_at_run env ops args n P i j)
    as [Hnil|(op' & Hop' & _ & _ & _ & ->)].
  - exfalso.
    assert (step_at i j [] [] (Create (P + i * n + j))
              ∈ steps_at (run_steps env ops args n P) i j) as Hin.
    { apply list_elem_of_filter. split; [done|].
      eapply segment_in_run; [done..|]. rewrite trial_steps_eq. by left. }
    rewrite Hnil in Hin. by apply elem_of_nil in Hin.
  - destruct (ops_run_elem env ops args n _ Hi) as (? & ? & [= <- <-] & Hop).
    by assert (op' = op) as -> by congruence.
Qed.

(** The claim C6 as stated fails: a trial whose operation raises puts no
    message at all, and none is taken. *)
Lemma result_channel_counterexample :
  ~ (forall env ops args n i j,
       let h := history (final (run_processes env ops args n init_world)) in
       steps_at h i j <> [] ->
       length (puts (steps_at h i j)) = 1
       /\ length (gets (steps_at h i j)) = 1).
Proof.
  intros H.
  pose proof (H full_env [failing_op] only_cpu 1 0 0) as H'.
  vm_compute in H'. destruct H' as [Hput _]; discriminate.
Qed.

(** C6, amended.  In every run the queue is empty at every step except
    right after a put, when it holds that one message; in particular it is
    empty when a process is created.  For a trial that was started and
    whose executor did not raise, exactly one message, the fragment of the
    iteration, is put and exactly that message is taken, and put, get and
    join are consecutive steps in this order.  For a trial whose executor
    raised nothing is put or taken, the process is not joined, and the
    orchestrator is blocked. *)
Theorem result_channel_per_trial env ops args n :
  let r := run_processes env ops args n init_world in
  let h := history (final r) in
  Forall channel_discipline h
  /\ (forall i j,
        steps_at h i j = []
        \/ exists op,
             ops !! i = Some op /\ j < n
             /\ match fragment env op args j with
                | Ok inner =>
                    let m := fragment_of op inner in
                    let p := i * n + j in
                    puts (steps_at h i j) = [m]
                    /\ gets (steps_at h i j) = [m]
                    /\ joins (steps_at h i j) = [p]
                    /\ exists pre post,
                         steps_at h i j
                           = pre ++ [step_at i j [p] [m] (Put m);
                                     step_at i j [p] [] (Get m);
                                     step_at i j [] [] (Join p)] ++ post
                | Raise e =>
                    puts (steps_at h i j) = []
                    /\ gets (steps_at h i j) = []
                    /\ joins (steps_at h i j) = []
                    /\ status r = SBlocked
                end)
  /\ (status r = SDone ->
      forall i op j, ops !! i = Some op -> j < n ->
        exists inner,
          fragment env op args j = Ok inner
          /\ puts (steps_at h i j) = [fragment_of op inner]
          /\ gets (steps_at h i j) = [fragment_of op inner]).
Proof.
  intros r h. subst r h. destruct (history_init env ops args n) as [-> ->].
  assert (Hseg : forall i j op,
            match fragment env op args j with
            | Ok inner =>
                puts (trial_steps env op args i j (i * n + j))
                  = [fragment_of op inner]
                /\ gets (trial_steps env op args i j (i * n + j))
                   = [fragment_of op inner]
                /\ joins (trial_steps env op args i j (i * n + j))
                   = [i * n + j]
            | Raise e =>
                puts (trial_steps env op args i j (i * n + j)) = []
                /\ gets (trial_steps env op args i j (i * n + j)) = []
                /\ joins (trial_steps env op args i j (i * n + j)) = []
            end).
  { intros i j op. unfold puts, gets, joins.
    rewrite !omap_trial_steps by done.
    by destruct (fragment env op args j) as [[|x inner]|e]. }
  split_and!.
  - apply Forall_run_steps. intros i op j _ _.
    by apply Forall_trial_steps.
  - intros i j. destruct (steps_at_run env ops args n 0 i j)
      as [->|(op & Hop & Hj & Hi & Hjr & ->)]; [by left|right].
    exists op. split_and!; try done. specialize (Hseg i j op).
    destruct (fragment env op args j) as [inner|e] eqn:Hf.
    + destruct Hseg as (? & ? & ?). split_and!; try done.
      rewrite trial_steps_eq, Hf, app_assoc. by eexists _, _.
    + destruct Hseg as (? & ? & ?). split_and!; try done.
      assert (trial_status env op args j = SBlocked) as Hst
        by (unfold trial_status; by rewrite Hf).
      unfold run_status.
      rewrite (executed_failed _ _ (i, op) Hi); unfold op_status; simpl.
      * rewrite (executed_failed _ _ j Hjr); by rewrite Hst.
      * rewrite (executed_failed _ _ j Hjr); by rewrite Hst.
  - intros Hd i op j Hop Hj.
    destruct (run_done env ops args n Hd i op Hop) as [Hin Hst].
    destruct (op_done_trials env args n i op Hst) as [Hall Hdone].
    rewrite (steps_at_started env ops args n 0 i j op Hin);
      [|rewrite Hall; apply elem_of_seq; lia].
    specialize (Hseg i j op). specialize (Hdone j Hj).
    unfold trial_status in Hdone.
    destruct (fragment env op args j) as [inner|e]; [|done].
    exists inner. by destruct Hseg as (? & ? & ?).
Qed.

Lemma result_channel_per_trial_witness :
  let h :=
    history (final (run_processes full_env [matmul; relu_first] only_cpu 2
                      init_world)) in
  exists inner,
    fragment full_env matmul only_cpu 1 = Ok inner
    /\ puts (steps_at h 0 1) = [fragment_of matmul inner]
    /\ gets (steps_at h 0 1) = [fragment_of matmul inner].
Proof.
  destruct (result_channel_per_trial full_env [matmul; relu_first] only_cpu 2)
    as (_ & _ & H).
  apply (H eq_refl 0 matmul 1 eq_refl). lia.
Defined.

(** ** Failures *)

(** A trial in which an enabled invocation raises does not deliver. *)
Lemma failing_trial env op args j b e :
  b ∈ enabled_backends args ->
  answer op j args None b = Raise e ->
  exists e', fragment env op args j = Raise e'.
Proof.
  intros [k Hb]%list_elem_of_lookup He. unfold fragment.
  destruct (measure env op j args None (enabled_backends args))
    as [acts [inner|e']] eqn:Hm; [|by eexists].
  destruct (measure_ok _ _ _ _ _ _ _ _ Hm) as (HF & _ & _).
  destruct (Forall2_lookup_l _ _ _ _ _ HF Hb) as (kv & _ & _ & Hok).
  congruence.
Qed.

(** Once an invocation can raise, some backend is enabled, so no trial
    fails on an empty fragment. *)
Lemma some_backend_no_index_error env args op j op' j' e e' :
  fragment env op args j = Raise e ->
  trial_status env op' args j' <> SRaised e'.
Proof.
  unfold trial_status, fragment. intros Hr Hs.
  destruct (enabled_backends args) as [|b bs] eqn:Hbs; [done|].
  destruct (measure env op' j' args None (b :: bs))
    as [acts [[|x inner]|e'']] eqn:Hm; try done.
  destruct (measure_ok _ _ _ _ _ _ _ _ Hm) as (HF & _ & _).
  by apply Forall2_nil_inv_r in HF.
Qed.

Lemma failure_blocks env ops args n i op j e :
  ops !! i = Some op -> j < n ->
  fragment env op args j = Raise e ->
  run_status env ops args n = SBlocked.
Proof.
  intros Hop Hj Hf.
  assert (trial_status env op args j = SBlocked) as Hst
    by (unfold trial_status; by rewrite Hf).
  assert (run_status env ops args n <> SDone) as Hnd.
  { intros Hd. destruct (run_done env ops args n Hd i op Hop) as [_ Hos].
    destruct (op_done_trials env args n i op Hos) as [_ Hall].
    specialize (Hall j Hj). congruence. }
  destruct (executed_stopped _ _ Hnd) as (l1 & [i' op'] & _ & Hx).
  fold (run_status env ops args n) in Hx. rewrite <- Hx in *.
  unfold op_status in *. simpl in *.
  destruct (executed_stopped _ _ Hnd) as (l2 & j' & _ & Hj').
  rewrite <- Hj' in *.
  destruct (trial_status env op' args j') as [|e'|] eqn:Hs; [done| |done].
  by apply (some_backend_no_index_error env args op j op' j' e e') in Hs.
Qed.

(** C9.  When an enabled invocation of the operation's [run] raises, the
    executor itself raises: the exception is that of the first invocation
    that fails (or the [NameError] of an unreachable mlx met before it),
    every invocation before it returned, the failing invocation is the
    last one made, no invocation is made twice, nothing is returned, and
    nothing is put on the queue.  Nor does the orchestrator mask it: a run
    in which some trial raises never completes and reports nothing. *)
Theorem failures_propagate env op args q w b e :
  b ∈ enabled_backends args ->
  answer op (cur_trial w) args (mx_default w) b = Raise e ->
  let r := run env op args q w in
  (exists e' w',
     r = Raised e' w' /\ queue w' = queue w
     /\ Forall (fun a => forall m, a <> Put m) (logged w r)
     /\ NoDup (invocations (logged w r))
     /\ exists l1 b0 l2,
          enabled_backends args = l1 ++ b0 :: l2
          /\ Forall (fun b => exists t,
                       answer op (cur_trial w) args (mx_default w) b = Ok t)
               l1
          /\ ((answer op (cur_trial w) args (mx_default w) b0 = Raise e'
               /\ invocations (logged w r)
                    = invocation args (mx_default w) <$> (l1 ++ [b0]))
              \/ (e' = NameError "mx" /\ mx_bound env = false
                  /\ is_Some (select b0)
                  /\ invocations (logged w r)
                       = invocation args (mx_default w) <$> l1)))
  /\ delivered r = None
  /\ (forall ops n i j b1 e1,
        ops !! i = Some op -> j < n ->
        b1 ∈ enabled_backends args ->
        answer op j args None b1 = Raise e1 ->
        status (run_processes env ops args n init_world) = SBlocked
        /\ reports (final (run_processes env ops args n init_world)) = []).
Proof.
  intros Hb He r.
  destruct (run_failure env op args q w b e Hb He) as (e' & w' & Hr & Hrest).
  fold r in Hr, Hrest. split_and!.
  - by exists e', w'.
  - by rewrite Hr.
  - intros ops n i j b1 e1 Hop Hj Hb1 He1.
    destruct (failing_trial env op args j b1 e1 Hb1 He1) as [e2 Hf].
    pose proof (failure_blocks env ops args n i op j e2 Hop Hj Hf) as Hblk.
    destruct (run_processes_spec env ops args n init_world eq_refl)
      as (_ & Hs & Hrep).
    by rewrite Hs, Hrep, Hblk.
Qed.

Lemma failures_propagate_witness :
  delivered (run full_env failing_op only_cpu (Some result_queue) init_world)
    = None
  /\ status (run_processes full_env [matmul; failing_op] only_cpu 2 init_world)
     = SBlocked
  /\ reports
       (final (run_processes full_env [matmul; failing_op] only_cpu 2 init_world))
     = [].
Proof.
  destruct (failures_propagate full_env failing_op only_cpu (Some result_queue)
              init_world row_cpu (Exception "unsupported"))
    as (_ & Hd & Horch).
  - by left.
  - reflexivity.
  - split; [exact Hd|].
    apply (Horch [matmul; failing_op] 2 1 0 row_cpu (Exception "unsupported"));
      [reflexivity|lia|by left|reflexivity].
Defined.

(** ** Aggregation *)

Lemma aggregated_lookup env args n (ops1 ops2 : list Operation) op d :
  Forall (fun o => op_key o n <> op_key op n) ops2 ->
  getitem (foldl (store env args n) d (ops1 ++ op :: ops2)) (op_key op n)
    = Some (means env op args n).
Proof.
  intros Hlast. rewrite foldl_app. simpl.
  generalize (foldl (store env args n) d ops1). intros d'.
  assert (getitem (store env args n d' op) (op_key op n)
          = Some (means env op args n)) as Hhere
    by apply getitem_setitem_eq.
  revert Hhere. generalize (store env args n d' op). clear d'.
  induction Hlast as [|o ops2 Ho _ IH]; intros d' Hd'; [done|].
  simpl. apply IH. unfold store at 1. by rewrite getitem_setitem_ne.
Qed.

Lemma aggregated_NoDup env args n (ops : list Operation) d :
  NoDup (keys d) -> NoDup (keys (foldl (store env args n) d ops)).
Proof.
  revert d. induction ops as [|op ops IH]; intros d Hd; [done|].
  simpl. apply IH. by apply NoDup_keys_setitem.
Qed.

Lemma aggregated_keys env args n (ops : list Operation) d k :
  k ∈ keys (foldl (store env args n) d ops)
  <-> k ∈ keys d \/ exists op, op ∈ ops /\ k = op_key op n.
Proof.
  revert d. induction ops as [|op ops IH]; intros d; simpl.
  - split; [by left|]. by intros [?|(? & ?%elem_of_nil & _)].
  - rewrite IH. unfold store at 1. rewrite elem_of_keys_setitem. split.
    + intros [[->|?]|(o & ? & ->)]; [right|by left|right].
      * exists op. split; [by left|done].
      * exists o. split; [by right|done].
    + intros [?|(o & [->|?]%elem_of_cons & ->)];
        [left; by right|left; by left|right].
      by exists o.
Qed.

Lemma elem_of_keys_append_item {K V : Type} `{EqDecision K}
    (d : list (K * list V)) k x k' :
  k' ∈ keys (append_item d k x) <-> k' = k \/ k' ∈ keys d.
Proof. rewrite append_item_eq. apply elem_of_keys_setitem. Qed.

Lemma elem_of_keys_collect d inner k :
  k ∈ keys (collect d inner) <-> k ∈ keys d \/ k ∈ inner.*1.
Proof.
  revert d. induction inner as [|[k' t'] inner IH]; intros d.
  - split; [by left|]. by intros [?|?%elem_of_nil].
  - rewrite collect_cons, IH, elem_of_keys_append_item, fmap_cons, elem_of_cons.
    simpl. tauto.
Qed.

Lemma samples_keys env op args n k :
  (forall j, j < n -> trial_status env op args j = SDone) ->
  0 < n ->
  k ∈ keys (samples env op args n) <-> k ∈ key <$> enabled_backends args.
Proof.
  intros Hdone Hn. induction n as [|n IH]; [lia|].
  rewrite samples_S, elem_of_keys_collect.
  specialize (Hdone n (Nat.lt_succ_diag_r n)) as Hlast.
  unfold trial_status, fragment in Hlast. unfold got, fragment.
  destruct (measure env op n args None (enabled_backends args))
    as [acts [[|x inner]|e]] eqn:Hm; try done. cbn [snd].
  destruct (measure_ok _ _ _ _ _ _ _ _ Hm) as (HF & _ & _).
  rewrite (recorded_keys _ _ _ _ _ _ HF).
  destruct n as [|n]; [|rewrite IH; [tauto|intros; apply Hdone; lia|lia]].
  split; [|by right]. by intros [?%elem_of_nil|?].
Qed.

Lemma means_means_of env op args n :
  (forall j, j < n -> trial_status env op args j = SDone) ->
  0 < n ->
  means_of env op args n (means env op args n).
Proof.
  intros Hdone Hn. unfold means_of, means. split_and!.
  - rewrite keys_fmap_values. apply samples_NoDup.
  - intros k. rewrite keys_fmap_values, samples_keys by done.
    rewrite list_elem_of_fmap. split; intros (b & ? & ?); by exists b.
  - intros b Hb.
    destruct (samples_lookup env op args n b Hdone Hb)
      as (ts & Hlen & Hts & _ & Hget).
    exists ts. split_and!; try done.
    by rewrite getitem_fmap_values, Hget.
Qed.

Lemma reported_aggregated env ops args n all_times :
  reported (run_processes env ops args n init_world) all_times ->
  all_times = aggregated env ops args n
  /\ run_status env ops args n = SDone.
Proof.
  intros [Hs Hr].
  destruct (run_processes_spec env ops args n init_world eq_refl)
    as (_ & Hst & Hrep).
  rewrite Hst in Hs. rewrite Hrep, Hs in Hr. simpl in Hr.
  split; [congruence|done].
Qed.

(** The entry of an operation that is the last one with its label. *)
Lemma last_label_entry env ops args n i op :
  run_status env ops args n = SDone -> 0 < n ->
  ops !! i = Some op ->
  (forall i' op', i < i' -> ops !! i' = Some op' -> label op' <> label op) ->
  getitem (aggregated env ops args n) (Some (label op))
    = Some (means env op args n)
  /\ means_of env op args n (means env op args n).
Proof.
  intros Hd Hn Hop Hlast. split.
  - unfold aggregated. rewrite <- (take_drop_middle ops i op Hop).
    replace (Some (label op)) with (op_key op n) by (by destruct n; [lia|]).
    apply aggregated_lookup. apply Forall_forall.
    intros o [k Hk]%list_elem_of_lookup. rewrite lookup_drop in Hk.
    destruct n; [lia|]. simpl. intros [= Heq].
    by apply (Hlast (S i + k) o); [lia|done|].
  - destruct (run_done env ops args n Hd i op Hop) as [_ Hst].
    destruct (op_done_trials env args n i op Hst) as [_ Hall].
    by apply means_means_of.
Qed.

(** The claim C1 as stated fails in two ways: an operation whose label a
    later operation shares has its entry overwritten by the means of the
    later one (here the mean of the one sample 0.03 where that of the one
    sample 0.01 is claimed), and with no trial at all the only key of the
    timing set is [None]. *)
Lemma aggregated_means_counterexample :
  ~ claimed_means full_env [relu_first; relu_again] only_cpu 1
  /\ ~ claimed_means full_env [relu_first] only_cpu 0.
Proof.
  split; intros H.
  - destruct (H [(Some "ReLU / 128x16x1024", [("cpu", 0.03%float)])]
                (conj eq_refl eq_refl) 0 relu_first row_cpu eq_refl)
      as (m & ts & Hm & Hlen & Hts & Hget); [by left|].
    vm_compute in Hm. injection Hm as <-.
    destruct (Hts 0) as (t & Ht & Hans); [lia|].
    vm_compute in Hans. injection Hans as <-.
    destruct ts as [|t' [|? ?]]; try done.
    injection Ht as ->. vm_compute in Hget. discriminate.
  - destruct (H [(None, [])] (conj eq_refl eq_refl) 0 relu_first row_cpu
                eq_refl) as (m & ts & Hm & _); [by left|].
    vm_compute in Hm. discriminate.
Qed.

(** C1, amended.  After a completed run of at least one iteration, for
    every operation that is the last of the catalogue with its label and
    every enabled backend, the timing set handed to [print_benchmark] maps
    the label to a dictionary that has exactly one value for the backend
    key: what [np.mean] returns for the list of the [iterations] durations
    the operation returned for that backend, one per trial and in the
    order of the trials.  The runner does not inspect the durations: they
    are positive and finite when those the operation returns are. *)
Theorem aggregated_means env ops args n all_times i op b :
  reported (run_processes env ops args n init_world) all_times ->
  0 < n ->
  ops !! i = Some op ->
  (forall i' op', i < i' -> ops !! i' = Some op' -> label op' <> label op) ->
  b ∈ enabled_backends args ->
  exists m ts,
    getitem all_times (Some (label op)) = Some m
    /\ NoDup (keys all_times) /\ NoDup (keys m)
    /\ length ts = n
    /\ (forall j, j < n ->
          exists t, ts !! j = Some t /\ answer op j args None b = Ok t)
    /\ getitem m (key b) = Some (np_mean env ts)
    /\ ((forall j t, j < n -> answer op j args None b = Ok t ->
           positive_finite t = true) ->
        Forall (fun t => positive_finite t = true) ts).
Proof.
  intros [-> Hd]%reported_aggregated Hn Hop Hlast Hb.
  destruct (last_label_entry env ops args n i op Hd Hn Hop Hlast)
    as (Hget & Hnd & _ & Hm).
  destruct (Hm b Hb) as (ts & Hlen & Hts & ?).
  exists (means env op args n), ts. split_and!; try done.
  - by apply aggregated_NoDup, NoDup_nil_2.
  - intros Hpos. apply Forall_lookup. intros j t Hj.
    assert (j < n) as Hjn by (rewrite <- Hlen; by eapply lookup_lt_Some).
    destruct (Hts j Hjn) as (t' & Ht' & Hans).
    assert (t' = t) as -> by congruence. by eapply Hpos.
Qed.

Lemma aggregated_means_witness :
  exists m ts,
    getitem [(Some "MatMul / 32x1x1000 x 32x1000x128", [("cpu", 0.02%float)])]
      (Some (label matmul)) = Some m
    /\ NoDup (keys [(Some "MatMul / 32x1x1000 x 32x1000x128",
                     [("cpu", 0.02%float)])])
    /\ NoDup (keys m)
    /\ length ts = 2
    /\ (forall j, j < 2 ->
          exists t, ts !! j = Some t /\ answer matmul j only_cpu None row_cpu = Ok t)
    /\ getitem m (key row_cpu) = Some (np_mean full_env ts)
    /\ ((forall j t, j < 2 ->
           answer matmul j only_cpu None row_cpu = Ok t ->
           positive_finite t = true) ->
        Forall (fun t => positive_finite t = true) ts).
Proof.
  apply (aggregated_means full_env [matmul] only_cpu 2 _ 0 matmul row_cpu).
  - split; reflexivity.
  - lia.
  - reflexivity.
  - intros i' op' Hi' Hop'. destruct i' as [|i']; [lia|discriminate].
  - by left.
Defined.

(** The claim C10 as stated fails for a run of no iteration: [op_name] is
    never assigned, every operation is stored under [None], and no label
    has an entry. *)
Lemma one_entry_per_label_counterexample :
  ~ claimed_entries full_env [relu_first] only_cpu 0.
Proof.
  intros H.
  destruct (H [(None, [])] (conj eq_refl eq_refl)) as [_ H'].
  destruct (H' 0 relu_first eq_refl) as (m & Hm & _).
  - intros i' op' Hi' Hop'. destruct i' as [|i']; [lia|discriminate].
  - vm_compute in Hm. discriminate.
Qed.

(** A run with nothing to do, an empty catalogue or no iteration, spawns
    nothing and prints at once: an empty timing set for the empty
    catalogue, and otherwise the one entry that every operation stored
    under the unassigned [op_name]. *)
Lemma setitem_setitem {K V : Type} `{EqDecision K} (d : list (K * V)) k v v' :
  setitem (setitem d k v) k v' = setitem d k v'.
Proof.
  induction d as [|[k0 v0] d IH]; simpl.
  - by destruct (decide (k = k)).
  - destruct (decide (k0 = k)) as [->|Hne]; simpl.
    + by destruct (decide (k = k)).
    + destruct (decide (k0 = k)); [done|]. by rewrite IH.
Qed.

Lemma no_trials env args q (ops : list (nat * Operation)) all_times w :
  for_each ops (per_op env args 0 q) all_times w
    = Done (foldl (fun a _ => setitem a None []) all_times ops) w.
Proof.
  revert all_times. induction ops as [|[i op] ops IH]; intros a; [done|].
  rewrite for_each_cons, per_op_eq. simpl. apply IH.
Qed.

Lemma store_none {A : Type} (l : list A) (a : AllTimes) :
  foldl (fun a _ => setitem a None []) a l
    = match l with [] => a | _ => setitem a None [] end.
Proof.
  revert a. induction l as [|x l IH]; intros a; [done|].
  simpl. rewrite IH. destruct l; [done|]. apply setitem_setitem.
Qed.

Lemma run_processes_idle env ops args n w :
  ops = [] \/ n = 0 ->
  let a : AllTimes := match ops with [] => [] | _ => [(None, [])] end in
  run_processes env ops args n w
    = Done tt (add_report (a, true) (add_report (a, false)
                 (set_pbar 0 (set_queue [] w)))).
Proof.
  intros H. rewrite run_processes_eq. destruct H as [->| ->].
  - reflexivity.
  - rewrite no_trials, store_none. by destruct ops.
Qed.

(** C10, amended.  After a completed run of at least one iteration the
    timing set has exactly one entry per label of the catalogue and no
    other entry.  When an earlier and a later operation have the same
    label and no operation after the later one has it, the entry of that
    label holds the means of the later operation alone: for each enabled
    backend what [np.mean] returns for its own [iterations] samples, the
    samples of the earlier operation being dropped with its overwritten
    entry.  After a run of no iteration no label has an entry: the timing
    set is empty for the empty catalogue and otherwise holds the one key
    [None] with an empty dictionary. *)
Theorem one_entry_per_label env ops args n all_times :
  reported (run_processes env ops args n init_world) all_times ->
  NoDup (keys all_times)
  /\ (0 < n ->
      (forall k, k ∈ keys all_times
                 <-> exists op, op ∈ ops /\ k = Some (label op))
      /\ (forall i1 op1 i2 op2,
            ops !! i1 = Some op1 -> ops !! i2 = Some op2 ->
            i1 <= i2 -> label op1 = label op2 ->
            (forall i' op', i2 < i' -> ops !! i' = Some op' ->
               label op' <> label op2) ->
            getitem all_times (Some (label op1)) = Some (means env op2 args n)
            /\ means_of env op2 args n (means env op2 args n)))
  /\ (n = 0 ->
      all_times = match ops with [] => [] | _ :: _ => [(None, [])] end).
Proof.
  intros Hrep. split_and!.
  - apply reported_aggregated in Hrep as [-> _].
    by apply aggregated_NoDup, NoDup_nil_2.
  - apply reported_aggregated in Hrep as [-> Hd]. intros Hn. split.
    + intros k. unfold aggregated. rewrite aggregated_keys.
      split.
      * intros [?%elem_of_nil|(op & ? & ->)]; [done|].
        exists op. by destruct n; [lia|].
      * intros (op & ? & ->). right. exists op. by destruct n; [lia|].
    + intros i1 op1 i2 op2 _ Hop2 _ -> Hlast.
      by apply (last_label_entry env ops args n i2 op2).
  - intros ->. destruct Hrep as [_ Hrep].
    rewrite (run_processes_idle env ops args 0 init_world) in Hrep
      by by right.
    simpl in Hrep. injection Hrep as Hrep. by destruct ops.
Qed.

Lemma one_entry_per_label_witness :
  (NoDup (keys [(Some "ReLU / 128x16x1024", [("cpu", 0.03%float)])])
   /\ (forall k, k ∈ keys [(Some "ReLU / 128x16x1024", [("cpu", 0.03%float)])]
                 <-> exists op,
                       op ∈ [relu_first; relu_again] /\ k = Some (label op))
   /\ (forall i1 op1 i2 op2,
         [relu_first; relu_again] !! i1 = Some op1 ->
         [relu_first; relu_again] !! i2 = Some op2 ->
         i1 <= i2 -> label op1 = label op2 ->
         (forall i' op', i2 < i' -> [relu_first; relu_again] !! i' = Some op' ->
            label op' <> label op2) ->
         getitem [(Some "ReLU / 128x16x1024", [("cpu", 0.03%float)])]
           (Some (label op1)) = Some (means full_env op2 only_cpu 1)
         /\ means_of full_env op2 only_cpu 1 (means full_env op2 only_cpu 1)))
  /\ ([(None, [])] : AllTimes)
     = match [relu_first; relu_again] with [] => [] | _ :: _ => [(None, [])] end.
Proof.
  split.
  - destruct (one_entry_per_label full_env [relu_first; relu_again] only_cpu 1
                [(Some "ReLU / 128x16x1024", [("cpu", 0.03%float)])])
      as (Hnd & Hpos & _); [split; reflexivity|].
    split; [exact Hnd|]. apply Hpos. lia.
  - destruct (one_entry_per_label full_env [relu_first; relu_again] only_cpu 0
                [(None, [])]) as (_ & _ & Hzero); [split; reflexivity|].
    by apply Hzero.
Defined.

(** * Further properties of the runner *)

(** ** The footprint of the executor *)

(** X1.  Whatever the flags and however the operation answers, [run]
    never waits, and of the world it touches only the log, the queue and
    the mlx default device: the loop position, the processes, the
    progress bar and what was printed are as before, and the log is only
    extended.  When it returns, the mlx default device is the one it
    selected last, [mx.cpu] with [include_mlx] and [include_cpu], [mx.gpu]
    with [include_mlx] alone, and the device found at entry without
    [include_mlx]. *)
Theorem executor_frame env op args q w :
  let r := run env op args q w in
  status r <> SBlocked
  /\ cur_op (final r) = cur_op w /\ cur_trial (final r) = cur_trial w
  /\ spawned (final r) = spawned w /\ alive (final r) = alive w
  /\ pbar (final r) = pbar w /\ reports (final r) = reports w
  /\ history w `prefix_of` history (final r)
  /\ (status r = SDone ->
      mx_default (final r)
        = if include_mlx args
          then Some (if include_cpu args then mx_cpu else mx_gpu)
          else mx_default w).
Proof.
  unfold run.
  generalize (type_name op +:+ " / " +:+ args_str op); intros l.
  destruct w, env as [[] ? ? ?], args as [[] [] [] [] []], q;
    cbn -[setitem2 setitem];
    unfold mbind, M_bind, mret, M_ret, call_run, mx_set_default_device,
      modify, queue_put, raise;
    cbn -[setitem2 setitem];
    repeat (match goal with
            | |- context [op_run ?o ?j ?a ?k] => destruct (op_run o j a k)
            end; cbn -[setitem2 setitem]);
    split_and!; try done; try (by repeat apply prefix_app_r).
Qed.

Lemma enabled_elem args b :
  b ∈ enabled_backends args <-> b ∈ matrix /\ enabled b args = true.
Proof.
  unfold enabled_backends. rewrite !list_elem_of_In, filter_In. done.
Qed.

Lemma measure_entry env op j args entry entry' (bs : list Backend) :
  (forall b, b ∈ bs -> ambient b args entry = ambient b args entry') ->
  measure env op j args entry bs = measure env op j args entry' bs.
Proof.
  induction bs as [|b bs IH]; intros Hb; [done|].
  simpl. rewrite (Hb b) by by left. rewrite IH; [done|].
  intros b' Hb'. apply Hb. by right.
Qed.

(** With [include_mlx] every call is made under a device the executor
    has selected itself. *)
Lemma ambient_with_mlx b args entry entry' :
  b ∈ matrix -> include_mlx args = true ->
  ambient b args entry = ambient b args entry'.
Proof.
  unfold matrix. rewrite !elem_of_cons, !elem_of_nil.
  intros Hb Hm.
  repeat (destruct Hb as [->|Hb]; [|]); try done;
    simpl; unfold torch_ambient; by rewrite Hm.
Qed.

(** X2.  With [include_mlx] the executor selects the mlx device before
    its first call, so the device it finds at entry is irrelevant: started
    at the same trial under two different default devices it ends the same
    way, makes the same calls under the same devices and hands over the
    same fragment. *)
Theorem executor_entry_device env op args q w w' :
  include_mlx args = true ->
  cur_trial w = cur_trial w' ->
  let r := run env op args q w in
  let r' := run env op args q w' in
  status r = status r'
  /\ logged w r = logged w' r'
  /\ delivered r = delivered r'.
Proof.
  intros Hm Hj r r'. subst r r'.
  destruct (measure env op (cur_trial w) args (mx_default w)
              (enabled_backends args)) as [acts res] eqn:Hw.
  assert (measure env op (cur_trial w') args (mx_default w')
            (enabled_backends args) = (acts, res)) as Hw'.
  { rewrite <- Hj, <- Hw. apply measure_entry.
    intros b [Hb _]%enabled_elem. by apply ambient_with_mlx. }
  destruct res as [inner|e].
  - destruct (run_ok env op args q w acts inner Hw) as (w1 & -> & -> & _ & ->).
    destruct (run_ok env op args q w' acts inner Hw') as (w1' & -> & -> & _ & ->).
    done.
  - destruct (run_raise env op args q w acts e Hw) as (w1 & -> & _ & ->).
    destruct (run_raise env op args q w' acts e Hw') as (w1' & -> & _ & ->).
    done.
Qed.

Lemma executor_entry_device_witness :
  status (run full_env matmul everything None
            (set_mx_default (Some mx_cpu) init_world))
    = status (run full_env matmul everything None init_world)
  /\ logged (set_mx_default (Some mx_cpu) init_world)
       (run full_env matmul everything None
          (set_mx_default (Some mx_cpu) init_world))
     = logged init_world (run full_env matmul everything None init_world)
  /\ delivered (run full_env matmul everything None
                  (set_mx_default (Some mx_cpu) init_world))
     = delivered (run full_env matmul everything None init_world).
Proof.
  apply (executor_entry_device full_env matmul everything None
           (set_mx_default (Some mx_cpu) init_world) init_world);
    reflexivity.
Defined.

(** ** mlx requested and not imported *)

Lemma fragment_mlx_unbound env op args j :
  mx_bound env = false -> include_mlx args = true ->
  measure env op j args None (enabled_backends args)
    = ([], Raise (NameError "mx")).
Proof.
  intros He Hm. unfold enabled_backends, matrix. simpl. rewrite Hm. simpl.
  by rewrite He.
Qed.

(** X3.  When mlx was not imported and [include_mlx] is set, the executor
    raises [NameError] at its first statement, before any call of the
    operation and whatever the other flags, leaving the world as it was.
    The orchestrator then stops in the first trial of the first
    operation: the child is created, started and crashes, nothing is put,
    and the parent waits on the queue without printing anything.  The
    start-up checks do not cover this case: the script body that passes
    them hangs in the same way. *)
Theorem mlx_unavailable env op ops args n q w :
  mx_bound env = false -> include_mlx args = true -> 0 < n ->
  run env op args q w = Raised (NameError "mx") w
  /\ (let r := run_processes env (op :: ops) args n init_world in
      status r = SBlocked
      /\ history (final r)
         = [step_at 0 0 [] [] (Create 0); step_at 0 0 [0] [] (Start 0);
            step_at 0 0 [0] [] (Crash 0 (NameError "mx"))]
      /\ reports (final r) = [])
  /\ ((include_cuda args = true -> cuda_is_available env = true) ->
      (include_mps args = true -> mps_is_available env = true) ->
      status (main env (op :: ops) args init_world) = SBlocked).
Proof.
  intros He Hm Hn.
  assert (trial_status env op args 0 = SBlocked) as Ht.
  { unfold trial_status, fragment.
    by rewrite (fragment_mlx_unbound env op args 0 He Hm). }
  assert (forall k, 0 < k -> op_status env args k (0, op) = SBlocked) as Ho.
  { intros k Hk. unfold op_status. destruct k; [lia|]. simpl. by rewrite Ht. }
  assert (forall k, 0 < k -> run_status env (op :: ops) args k = SBlocked)
    as Hrs.
  { intros k Hk. unfold run_status. simpl. by rewrite Ho. }
  split_and!.
  - unfold run. rewrite Hm. unfold mx_set_default_device. by rewrite He.
  - cbv zeta.
    destruct (run_processes_spec env (op :: ops) args n init_world eq_refl)
      as (Hh & Hs & Hr).
    rewrite Hs, Hr, Hh, Hrs by done. split_and!; try done.
    unfold run_steps. simpl. rewrite Ho by done. simpl. rewrite app_nil_r.
    unfold op_steps. destruct n; [lia|]. simpl. rewrite Ht. simpl.
    rewrite app_nil_r. unfold trial_steps.
    by rewrite (fragment_mlx_unbound env op args 0 He Hm).
  - intros Hc Hp. rewrite main_checks_pass by done.
    destruct (run_processes_spec env (op :: ops) args 5 init_world eq_refl)
      as (_ & -> & _).
    apply Hrs. lia.
Qed.

Lemma mlx_unavailable_witness :
  run no_mlx_env matmul only_mlx None init_world
    = Raised (NameError "mx") init_world
  /\ (status (run_processes no_mlx_env [matmul; relu_first] only_mlx 2
                init_world) = SBlocked
      /\ history (final (run_processes no_mlx_env [matmul; relu_first]
                           only_mlx 2 init_world))
         = [step_at 0 0 [] [] (Create 0); step_at 0 0 [0] [] (Start 0);
            step_at 0 0 [0] [] (Crash 0 (NameError "mx"))]
      /\ reports (final (run_processes no_mlx_env [matmul; relu_first]
                           only_mlx 2 init_world)) = [])
  /\ ((include_cuda only_mlx = true -> cuda_is_available no_mlx_env = true) ->
      (include_mps only_mlx = true -> mps_is_available no_mlx_env = true) ->
      status (main no_mlx_env [matmul; relu_first] only_mlx init_world)
        = SBlocked).
Proof.
  apply (mlx_unavailable no_mlx_env matmul [relu_first] only_mlx 2 None
           init_world); [reflexivity | reflexivity | lia].
Defined.

(** ** Runs with nothing to do *)

(** X4.  With an empty catalogue or no iteration the orchestrator spawns
    no process and logs no step; it completes and prints twice: an empty
    timing set for the empty catalogue, and for a catalogue that is not
    empty the one entry that line 53 stores under the unassigned
    [op_name], [None] with an empty dictionary.  The progress bar stays
    at 0. *)
Theorem nothing_to_run env ops args n :
  ops = [] \/ n = 0 ->
  let r := run_processes env ops args n init_world in
  let a : AllTimes := match ops with [] => [] | _ :: _ => [(None, [])] end in
  status r = SDone
  /\ history (final r) = []
  /\ spawned (final r) = 0 /\ alive (final r) = [] /\ pbar (final r) = 0
  /\ reports (final r) = [(a, false); (a, true)].
Proof.
  intros H. cbv zeta. rewrite (run_processes_idle env ops args n init_world H).
  by destruct ops.
Qed.

Lemma nothing_to_run_witness :
  status (run_processes full_env [matmul; relu_first] everything 0 init_world)
    = SDone
  /\ history (final (run_processes full_env [matmul; relu_first] everything 0
                       init_world)) = []
  /\ spawned (final (run_processes full_env [matmul; relu_first] everything 0
                       init_world)) = 0
  /\ alive (final (run_processes full_env [matmul; relu_first] everything 0
                     init_world)) = []
  /\ pbar (final (run_processes full_env [matmul; relu_first] everything 0
                    init_world)) = 0
  /\ reports (final (run_processes full_env [matmul; relu_first] everything 0
                       init_world))
     = [([(None, [])], false); ([(None, [])], true)].
Proof.
  apply (nothing_to_run full_env [matmul; relu_first] everything 0).
  by right.
Defined.

(** ** Runs with no backend enabled *)

Lemma no_backend args :
  include_mlx args || include_cpu args || include_mps args
    || include_cuda args = false <-> enabled_backends args = [].
Proof. by destruct args as [[] [] [] [] []]. Qed.

Lemma first_trial_fails env op ops args n s :
  0 < n -> s <> SDone ->
  trial_status env op args 0 = s ->
  run_status env (op :: ops) args n = s
  /\ run_steps env (op :: ops) args n 0 = trial_steps env op args 0 0 0.
Proof.
  intros Hn Hs Ht.
  assert (op_status env args n (0, op) = s) as Ho.
  { unfold op_status. destruct n; [lia|]. simpl. rewrite Ht. by destruct s. }
  split.
  - unfold run_status. simpl. rewrite Ho. by destruct s.
  - unfold run_steps. simpl. rewrite Ho.
    assert (executed (trial_status env op args) (seq 0 n) = [0]) as He.
    { destruct n; [lia|]. simpl. rewrite Ht. by destruct s. }
    destruct s; [done|..]; simpl; rewrite app_nil_r; unfold op_steps; simpl;
      rewrite He; simpl; by rewrite app_nil_r.
Qed.

(** X5.  With none of the four include flags set and something to run,
    the first child puts an empty mapping and the parent, having taken it
    and joined the child, fails on [list(times.values())[0]] with
    [IndexError]: exactly one process was spawned, nothing was appended,
    the progress bar was not advanced and nothing is printed, whatever
    the operations are and whether mlx is importable or not. *)
Theorem no_backend_enabled env op ops args n :
  include_mlx args || include_cpu args || include_mps args
    || include_cuda args = false ->
  0 < n ->
  let r := run_processes env (op :: ops) args n init_world in
  status r = SRaised (IndexError "list index out of range")
  /\ history (final r)
     = [step_at 0 0 [] [] (Create 0); step_at 0 0 [0] [] (Start 0);
        step_at 0 0 [0] [[]] (Put []); step_at 0 0 [0] [] (Get []);
        step_at 0 0 [] [] (Join 0)]
  /\ reports (final r) = [].
Proof.
  intros Hb%no_backend Hn. cbv zeta.
  destruct (run_processes_spec env (op :: ops) args n init_world eq_refl)
    as (_ & _ & Hr).
  destruct (history_init env (op :: ops) args n) as [Hh Hs].
  destruct (first_trial_fails env op ops args n
              (SRaised (IndexError "list index out of range")))
    as [Hrs Hst]; [done|done| |].
  { unfold trial_status, fragment. by rewrite Hb. }
  rewrite Hs, Hr, Hh, Hrs, Hst. split_and!; try done.
  unfold trial_steps. by rewrite Hb.
Qed.

Lemma no_backend_enabled_witness :
  status (run_processes full_env [matmul; relu_first] nothing 2 init_world)
    = SRaised (IndexError "list index out of range")
  /\ history (final (run_processes full_env [matmul; relu_first] nothing 2
                       init_world))
     = [step_at 0 0 [] [] (Create 0); step_at 0 0 [0] [] (Start 0);
        step_at 0 0 [0] [[]] (Put []); step_at 0 0 [0] [] (Get []);
        step_at 0 0 [] [] (Join 0)]
  /\ reports (final (run_processes full_env [matmul; relu_first] nothing 2
                       init_world)) = [].
Proof.
  apply (no_backend_enabled full_env matmul [relu_first] nothing 2);
    [reflexivity | lia].
Defined.

(** ** How a run ends *)

Lemma trial_status_raised env op args j e :
  trial_status env op args j = SRaised e
  <-> e = IndexError "list index out of range" /\ enabled_backends args = [].
Proof.
  unfold trial_status, fragment.
  destruct (measure env op j args None (enabled_backends args))
    as [acts r] eqn:Hm. simpl.
  split.
  - destruct r as [[|??]|?]; try done. intros [= <-]. split; [done|].
    apply measure_ok in Hm as (HF & _). by apply Forall2_nil_inv_r in HF.
  - intros [-> Hb]. rewrite Hb in Hm. simpl in Hm. by injection Hm as <- <-.
Qed.

Lemma selecting_backend args b :
  b ∈ enabled_backends args -> is_Some (select b) -> include_mlx args = true.
Proof.
  intros [Hb He]%enabled_elem [d Hd]. revert Hb He Hd.
  unfold matrix. rewrite !elem_of_cons, !elem_of_nil.
  intros Hb. repeat (destruct Hb as [->|Hb]; [|]); try done; simpl;
    try done; by intros [??]%andb_true_iff.
Qed.

Lemma trial_status_blocked env op args j :
  trial_status env op args j = SBlocked
  <-> (mx_bound env = false /\ include_mlx args = true)
      \/ exists b e, b ∈ enabled_backends args
                     /\ answer op j args None b = Raise e.
Proof.
  split.
  - unfold trial_status, fragment.
    destruct (measure env op j args None (enabled_backends args))
      as [acts r] eqn:Hm. simpl.
    destruct r as [[|??]|e]; try done. intros _.
    apply measure_raise in Hm
      as (l1 & b0 & l2 & Hl & _ & [[Ha _]|(-> & He & Hsel & _)]).
    + right. exists b0, e. split; [|done]. rewrite Hl.
      apply elem_of_app. right. by left.
    + left. split; [done|]. apply (selecting_backend args b0); [|done].
      rewrite Hl. apply elem_of_app. right. by left.
  - intros [[He Hm]|(b & e & Hb & Ha)].
    + unfold trial_status, fragment.
      by rewrite (fragment_mlx_unbound env op args j He Hm).
    + destruct (failing_trial env op args j b e Hb Ha) as [e' He'].
      unfold trial_status. by rewrite He'.
Qed.

Lemma loop_status_witness {A : Type} (f : A -> Status) (l : list A) :
  loop_status f l <> SDone ->
  exists x, x ∈ l /\ f x = loop_status f l.
Proof.
  intros (l1 & x & Hl & Hx)%executed_stopped. exists x. split; [|done].
  apply (executed_subseteq f). rewrite Hl. apply elem_of_app. right. by left.
Qed.

(** A run that does not complete has a trial that ends as the run does. *)
Lemma run_status_witness env ops args n :
  run_status env ops args n <> SDone ->
  exists i op j,
    ops !! i = Some op /\ j < n
    /\ trial_status env op args j = run_status env ops args n.
Proof.
  intros Hne. unfold run_status in *.
  destruct (loop_status_witness _ _ Hne) as ([i op] & Hin & Hx).
  apply list_elem_of_lookup in Hin as [k Hk].
  rewrite list_lookup_imap in Hk.
  destruct (ops !! k) as [op'|] eqn:Hop; [|done]. injection Hk as -> ->.
  rewrite <- Hx in Hne |- *. unfold op_status in *. simpl in *.
  destruct (loop_status_witness _ _ Hne) as (j & Hj & Hj').
  exists i, op, j. split_and!; try done.
  apply elem_of_seq in Hj. lia.
Qed.

Lemma run_status_cases env ops args n :
  run_status env ops args n = SDone
  \/ run_status env ops args n = SBlocked
  \/ run_status env ops args n
     = SRaised (IndexError "list index out of range").
Proof.
  destruct (run_status env ops args n) eqn:Hst; [by left| |by right; left].
  destruct (run_status_witness env ops args n) as (i & op & j & _ & _ & Ht);
    [by rewrite Hst|].
  rewrite Hst in Ht. apply trial_status_raised in Ht as [-> _].
  by right; right.
Qed.

(** X6.  A run of the orchestrator ends in one of three ways, and the
    flags and the answers of the operations decide which.  It fails with
    [IndexError] exactly when no backend is enabled and there is a trial
    to run; it waits forever on the queue exactly when some trial has an
    enabled invocation that raises, or needs mlx that was not imported;
    otherwise it completes.  No other exception ever reaches the caller,
    and the two tables are printed, from the same timing set, exactly
    when the run completes: a run that does not complete prints
    nothing. *)
Theorem run_outcomes env ops args n :
  let r := run_processes env ops args n init_world in
  (status r = SDone \/ status r = SBlocked
   \/ status r = SRaised (IndexError "list index out of range"))
  /\ (status r = SRaised (IndexError "list index out of range")
      <-> (include_mlx args || include_cpu args || include_mps args
             || include_cuda args = false)
          /\ ops <> [] /\ 0 < n)
  /\ (status r = SBlocked
      <-> exists i op j,
            ops !! i = Some op /\ j < n
            /\ ((mx_bound env = false /\ include_mlx args = true)
                \/ exists b e, b ∈ enabled_backends args
                               /\ answer op j args None b = Raise e))
  /\ (status r = SDone
      <-> exists a, reports (final r) = [(a, false); (a, true)])
  /\ (status r <> SDone -> reports (final r) = []).
Proof.
  cbv zeta.
  destruct (run_processes_spec env ops args n init_world eq_refl)
    as (_ & Hs & Hr).
  rewrite Hs, Hr. clear Hs Hr. simpl.
  split_and!.
  - apply run_status_cases.
  - rewrite no_backend. split.
    + intros Hst.
      destruct (run_status_witness env ops args n) as (i & op & j & Hop & Hj & Ht);
        [by rewrite Hst|].
      rewrite Hst in Ht. apply trial_status_raised in Ht as [_ Hb].
      split_and!; [done| |lia]. by intros ->.
    + intros (Hb & Hne & Hn). destruct ops as [|op ops]; [done|].
      apply (first_trial_fails env op ops args n); [done|done|].
      unfold trial_status, fragment. by rewrite Hb.
  - split.
    + intros Hst.
      destruct (run_status_witness env ops args n) as (i & op & j & Hop & Hj & Ht);
        [by rewrite Hst|].
      rewrite Hst in Ht. apply trial_status_blocked in Ht.
      by exists i, op, j.
    + intros (i & op & j & Hop & Hj & Ht%(trial_status_blocked env)).
      unfold trial_status in Ht.
      destruct (fragment env op args j) as [[|??]|e] eqn:Hf; try done.
      by apply (failure_blocks env ops args n i op j e).
  - split.
    + intros ->. by eexists.
    + intros [a Ha]. by destruct (run_status env ops args n).
  - by destruct (run_status env ops args n).
Qed.

(** ** Properties kept along a computation *)

Section keeps.
Context (I : World -> Prop).

Lemma keeps_ret {A : Type} (a : A) : keeps I (mret a).
Proof. by intros w Hw. Qed.

Lemma keeps_raise {A : Type} e : keeps I (raise (A:=A) e).
Proof. by intros w Hw. Qed.

Lemma keeps_bind {A B : Type} (m : M A) (k : A -> M B) :
  keeps I m -> (forall a, keeps I (k a)) -> keeps I (m ≫= k).
Proof.
  intros Hm Hk w Hw. specialize (Hm w Hw). unfold mbind, M_bind.
  destruct (m w) as [a w'|e w'|w']; simpl in *; [by apply Hk|done|done].
Qed.

Lemma keeps_modify (f : World -> World) :
  (forall w, I w -> I (f w)) -> keeps I (modify f).
Proof. intros Hf w Hw. by apply Hf. Qed.

Lemma keeps_for_each {A S : Type} (l : list A) (body : A -> S -> M S) s :
  (forall x s, keeps I (body x s)) -> keeps I (for_each l body s).
Proof.
  intros Hb. revert s. induction l as [|x l IH]; intros s w Hw; [done|].
  rewrite for_each_cons. specialize (Hb x s w Hw).
  destruct (body x s w) as [s' w'|e w'|w']; simpl in *; [by apply IH|done|done].
Qed.
End keeps.

(** ** The progress bar *)

Lemma updates_app h1 h2 : updates (h1 ++ h2) = updates h1 ++ updates h2.
Proof. unfold updates. by rewrite fmap_app, omap_app. Qed.

Lemma counted_log c a w :
  is_update a = None -> counted c w -> counted c (log a w).
Proof.
  unfold counted. simpl. intros Ha ->. rewrite updates_app.
  destruct a; try discriminate; by rewrite app_nil_r.
Qed.

Lemma counted_run c env op args q : keeps (counted c) (run env op args q).
Proof.
  intros w Hw. destruct (run_spec env op args q w) as [d ->].
  pose proof (measure_child_actions env op (cur_trial w) args (mx_default w)
                (enabled_backends args)) as Hk.
  destruct (measure env op (cur_trial w) args (mx_default w)
              (enabled_backends args)) as [acts r]. simpl in Hk.
  assert (counted c (record acts w)) as Hc.
  { unfold counted in *. rewrite record_eq. simpl. rewrite updates_app, Hw.
    unfold updates at 3. rewrite act_step_at.
    replace (omap is_update acts) with (@nil unit); [by rewrite app_nil_r|].
    symmetry. induction Hk as [|a acts Ha _ IH]; [done|].
    simpl. rewrite <- IH. by destruct a. }
  destruct r as [inner|e]; [destruct q|]; simpl; try done.
  by apply counted_log.
Qed.

Lemma counted_p_start {A : Type} c p (target : M A) :
  keeps (counted c) target -> keeps (counted c) (p_start p target).
Proof.
  intros Ht w Hw. unfold p_start.
  match goal with |- context [target ?w1] => specialize (Ht w1) end.
  destruct (target _) as [a w2|e w2|w2]; simpl in *.
  - apply Ht. by apply counted_log.
  - apply (counted_log c (Crash p e)); [done|]. apply Ht. by apply counted_log.
  - apply Ht. by apply counted_log.
Qed.

Lemma counted_trial c env op args q st :
  keeps (counted c) (trial env op args q st).
Proof.
  destruct st as [op_times nm]. unfold trial.
  apply keeps_bind.
  { intros w Hw. by apply counted_log. }
  intros p. apply keeps_bind; [apply counted_p_start, counted_run|]. intros _.
  apply keeps_bind.
  { intros w Hw. unfold queue_get. destruct (queue w); simpl; [done|].
    by apply counted_log. }
  intros times. apply keeps_bind.
  { apply keeps_modify. intros w Hw. by apply counted_log. }
  intros _. apply keeps_bind.
  { destruct (values times); [apply keeps_raise|apply keeps_ret]. }
  intros fragment. apply keeps_bind.
  { apply keeps_for_each. intros [b t] ot.
    apply keeps_bind; [|intros; apply keeps_ret].
    apply keeps_modify. intros w Hw. by apply counted_log. }
  intros ot. apply keeps_bind.
  { destruct (keys times); [apply keeps_raise|apply keeps_ret]. }
  intros nm'. apply keeps_bind; [|intros; apply keeps_ret].
  apply keeps_modify. intros w Hw. unfold counted in *. simpl.
  rewrite updates_app. unfold updates at 2. simpl. rewrite length_app. simpl. lia.
Qed.

Lemma counted_per_op c env args n q iop all_times :
  keeps (counted c) (per_op env args n q iop all_times).
Proof.
  destruct iop as [i op]. unfold per_op. apply keeps_bind.
  - apply keeps_for_each. intros j st.
    apply keeps_bind; [|intros; apply counted_trial].
    by apply keeps_modify.
  - intros [ot nm]. apply keeps_ret.
Qed.

(** At the end of a run the progress bar shows the number of updates
    that were logged. *)
Lemma pbar_counts env ops args n :
  pbar (final (run_processes env ops args n init_world))
    = length (updates (history (final (run_processes env ops args n
                                         init_world)))).
Proof.
  rewrite run_processes_eq.
  pose proof (keeps_for_each (counted 0) (imap pair ops)
                (per_op env args n result_queue) []
                (fun x s => counted_per_op 0 env args n result_queue x s)
                (set_pbar 0 (set_queue [] init_world)) eq_refl) as H.
  unfold counted in H. rewrite Nat.add_0_r in H.
  by destruct (for_each _ _ _ _).
Qed.

(** ** Counting over the loops *)

Section counting.
Context {A : Type} (f : A -> Status) (g : A -> nat) (c : nat).


Lemma executed_total (l : list A) :
  (forall x, x ∈ l -> f x = SDone -> g x = c) ->
  loop_status f l = SDone ->
  sum_list (g <$> executed f l) = length l * c.
Proof.
  induction l as [|x l IH]; intros Hd; [done|].
  assert (f x = SDone -> g x = c) as Hx by (apply Hd; by left).
  assert (loop_status f l = SDone ->
          sum_list (g <$> executed f l) = length l * c) as IH'
    by (apply IH; intros y Hy; apply Hd; by right).
  simpl. destruct (f x); [|done..]. intros Hs. simpl.
  rewrite Hx by done. f_equal. by apply IH'.
Qed.

Lemma executed_short (l : list A) :
  (forall x, x ∈ l -> f x = SDone -> g x = c) ->
  (forall x, x ∈ l -> f x <> SDone -> g x < c) ->
  loop_status f l <> SDone ->
  sum_list (g <$> executed f l) < length l * c.
Proof.
  induction l as [|x l IH]; intros Hd Hn; [done|].
  assert (f x = SDone -> g x = c) as Hx by (apply Hd; by left).
  assert (f x <> SDone -> g x < c) as Hx' by (apply Hn; by left).
  assert (loop_status f l <> SDone ->
          sum_list (g <$> executed f l) < length l * c) as IH'.
  { apply IH; intros y Hy; [apply Hd|apply Hn]; by right. }
  simpl. destruct (f x) eqn:Hf; simpl.
  - intros Hs. rewrite Hx by done. apply Nat.add_lt_mono_l. by apply IH'.
  - intros _. assert (g x < c) by by apply Hx'. lia.
  - intros _. assert (g x < c) by by apply Hx'. lia.
Qed.
End counting.

Lemma length_omap_bind {A B : Type} (g : Action -> option B)
    (seg : A -> list Step) (l : list A) :
  length (omap g (act <$> (l ≫= seg)))
    = sum_list ((fun x => length (omap g (act <$> seg x))) <$> l).
Proof.
  induction l as [|x l IH]; [done|].
  rewrite bind_cons, fmap_app, omap_app, length_app, IH. done.
Qed.

Lemma updates_trial_steps env op args i j p :
  length (updates (trial_steps env op args i j p))
    = match trial_status env op args j with SDone => 1 | _ => 0 end.
Proof.
  unfold updates. rewrite omap_trial_steps by done.
  unfold trial_status. by destruct (fragment env op args j) as [[|??]|?].
Qed.

Lemma updates_op_steps env args n P iop :
  (op_status env args n iop = SDone ->
   length (updates (op_steps env args n P iop)) = n)
  /\ (op_status env args n iop <> SDone ->
      length (updates (op_steps env args n P iop)) < n).
Proof.
  unfold op_steps, op_status, updates. rewrite length_omap_bind.
  split; intros Hs.
  - rewrite (executed_total _ _ 1); [by rewrite length_seq; lia| |done].
    intros j _ Hj. fold (updates (trial_steps env iop.2 args iop.1 j
                                    (P + iop.1 * n + j))).
    by rewrite updates_trial_steps, Hj.
  - pose proof (executed_short (trial_status env iop.2 args)
                  (fun j => length (omap is_update
                     (act <$> trial_steps env iop.2 args iop.1 j
                                (P + iop.1 * n + j)))) 1 (seq 0 n)) as H.
    rewrite length_seq in H. rewrite Nat.mul_1_r in H. apply H; [| |done].
    + intros j _ Hj. fold (updates (trial_steps env iop.2 args iop.1 j
                                      (P + iop.1 * n + j))).
      by rewrite updates_trial_steps, Hj.
    + intros j _ Hj. fold (updates (trial_steps env iop.2 args iop.1 j
                                      (P + iop.1 * n + j))).
      rewrite updates_trial_steps.
      destruct (trial_status env iop.2 args j); [done|lia|lia].
Qed.

Lemma updates_run_steps env ops args n P :
  (run_status env ops args n = SDone ->
   length (updates (run_steps env ops args n P)) = length ops * n)
  /\ (run_status env ops args n <> SDone ->
      length (updates (run_steps env ops args n P)) < length ops * n).
Proof.
  unfold run_steps, run_status, updates. rewrite length_omap_bind.
  split; intros Hs.
  - rewrite (executed_total _ _ n); [by rewrite length_imap| |done].
    intros iop _. apply updates_op_steps.
  - pose proof (executed_short (op_status env args n)
                  (fun iop => length (omap is_update
                     (act <$> op_steps env args n P iop))) n
                  (imap pair ops)) as H.
    rewrite length_imap in H. apply H; [| |done].
    + intros iop _. apply updates_op_steps.
    + intros iop _. apply updates_op_steps.
Qed.

(** X7.  The progress bar, created with the total [len(operations) *
    iterations] and advanced by [pbar.update(1)] at the end of each trial,
    counts the trials that ended normally: at the end of a run it stands
    at the number of updates logged, it never exceeds its total, and it
    reaches the total exactly when the run completes. *)
Theorem progress_bar env ops args n :
  let r := run_processes env ops args n init_world in
  pbar (final r) = length (updates (history (final r)))
  /\ pbar (final r) <= length ops * n
  /\ (status r = SDone <-> pbar (final r) = length ops * n).
Proof.
  cbv zeta. rewrite pbar_counts.
  destruct (history_init env ops args n) as [-> ->].
  destruct (updates_run_steps env ops args n 0) as [Hd Hn].
  destruct (run_status env ops args n).
  - specialize (Hd eq_refl). split_and!; [done|lia|done].
  - assert (length (updates (run_steps env ops args n 0)) < length ops * n)
      by by apply Hn.
    split_and!; [done|lia|]. split; [done|lia].
  - assert (length (updates (run_steps env ops args n 0)) < length ops * n)
      by by apply Hn.
    split_and!; [done|lia|]. split; [done|lia].
Qed.

(** ** The number of invocations *)





(** ** The script body *)

(** X9.  The script body fails with an [AssertionError] exactly when a
    requested torch device is missing, CUDA being checked before MPS:
    with the CUDA message when CUDA is requested and unavailable, and with
    the MPS message when that check passes and MPS is requested and
    unavailable.  A device that is not requested is never checked.  When
    both checks pass the script is the orchestrator run with 5
    iterations. *)
Theorem script_outcomes env ops args :
  let r := main env ops args init_world in
  (forall m,
     status r = SRaised (AssertionError m)
     <-> (include_cuda args = true /\ cuda_is_available env = false
          /\ m = "CUDA device not found.")
         \/ ((include_cuda args = true -> cuda_is_available env = true)
             /\ include_mps args = true /\ mps_is_available env = false
             /\ m = "MPS backend not available."))
  /\ ((include_cuda args = true -> cuda_is_available env = true) ->
      (include_mps args = true -> mps_is_available env = true) ->
      r = run_processes env ops args 5 init_world).
Proof.
  cbv zeta. split; [|apply main_checks_pass].
  intros m.
  assert (status (run_processes env ops args 5 init_world)
          <> SRaised (AssertionError m)) as Hrun.
  { destruct (history_init env ops args 5) as [_ ->].
    destruct (run_status_cases env ops args 5) as [->|[->| ->]]; done. }
  unfold main, mbind, M_bind, assert_ in *.
  destruct (include_cuda args), (cuda_is_available env),
    (include_mps args), (mps_is_available env); simpl in *;
    (split;
     [ intros H; first [ by destruct (Hrun H)
                       | injection H as <-; auto 10 ]
     | intros [(? & ? & ?)|(Hc & ? & ? & ?)]; try done; subst; try done;
       try (by specialize (Hc eq_refl)) ]).
Qed.

(** ** The order of the timing set *)

Section dict_order.
Context {K V : Type} `{EqDecision K}.
Implicit Types (d : list (K * V)) (k : K) (v : V).

Lemma setitem_fresh d k v : k ∉ keys d -> setitem d k v = d ++ [(k, v)].
Proof.
  induction d as [|[k0 v0] d IH]; [done|]. simpl.
  intros [Hne Hd]%not_elem_of_cons.
  destruct (decide (k0 = k)); [done|]. by rewrite IH.
Qed.

Lemma keys_setitem_known d k v : k ∈ keys d -> keys (setitem d k v) = keys d.
Proof.
  induction d as [|[k0 v0] d IH]; [by intros ?%elem_of_nil|]. simpl.
  destruct (decide (k0 = k)) as [->|Hne]; [done|].
  intros [?|Hd]%elem_of_cons; [done|]. simpl. f_equal. by apply IH.
Qed.

Lemma keys_setitem_prefix d k v : keys d `prefix_of` keys (setitem d k v).
Proof.
  destruct (decide (k ∈ keys d)) as [Hin|Hnin].
  - by rewrite keys_setitem_known.
  - rewrite setitem_fresh by done. unfold keys. rewrite fmap_app.
    by apply prefix_app_r.
Qed.

Lemma elem_of_setitem d k v e : e ∈ setitem d k v -> e ∈ d \/ e = (k, v).
Proof.
  induction d as [|[k0 v0] d IHd]; simpl.
  - intros ->%list_elem_of_singleton. by right.
  - destruct (decide (k0 = k)) as [->|Hne].
    + intros [->|?]%elem_of_cons; [by right|]. left. by right.
    + intros [->|[?| ->]%IHd]%elem_of_cons; [left; by left| |by right].
      left. by right.
Qed.
End dict_order.

Lemma keys_append_item_known {K V : Type} `{EqDecision K}
    (d : list (K * list V)) k x :
  k ∈ keys d -> keys (append_item d k x) = keys d.
Proof. rewrite append_item_eq. apply keys_setitem_known. Qed.

Lemma keys_collect_known d inner :
  (forall k, k ∈ inner.*1 -> k ∈ keys d) -> keys (collect d inner) = keys d.
Proof.
  revert d. induction inner as [|[k t] inner IH]; intros d Hk; [done|].
  rewrite collect_cons.
  assert (k ∈ keys d) as Hin by (apply Hk; by left).
  rewrite IH; [by apply keys_append_item_known|].
  intros k' Hk'. rewrite keys_append_item_known by done. apply Hk. by right.
Qed.

Lemma keys_collect_fresh d inner :
  NoDup (keys d ++ inner.*1) -> keys (collect d inner) = keys d ++ inner.*1.
Proof.
  revert d. induction inner as [|[k t] inner IH]; intros d Hnd.
  - by rewrite app_nil_r.
  - rewrite collect_cons. simpl in Hnd.
    assert (k ∉ keys d) as Hnin.
    { apply NoDup_app in Hnd as (_ & Hd & _). intros Hin.
      apply (Hd k Hin). by left. }
    assert (keys (append_item d k t) = keys d ++ [k]) as Hk.
    { rewrite append_item_eq, setitem_fresh by done.
      unfold keys. by rewrite fmap_app. }
    rewrite IH; rewrite Hk, <- app_assoc; done.
Qed.

Lemma got_keys env op args j :
  trial_status env op args j = SDone ->
  (got env op args j).*1 = key <$> enabled_backends args.
Proof.
  unfold trial_status, got, fragment.
  destruct (measure env op j args None (enabled_backends args))
    as [acts r] eqn:Hm. simpl.
  destruct r as [[|x inner]|e]; try done. intros _.
  apply measure_ok in Hm as (HF & _). by eapply recorded_keys.
Qed.

(** The sample lists of an operation are kept in the order in which the
    first trial delivered the backends. *)
Lemma samples_order env op args n :
  (forall j, j < n -> trial_status env op args j = SDone) ->
  0 < n ->
  keys (samples env op args n) = key <$> enabled_backends args.
Proof.
  intros Hd Hn. destruct n as [|n]; [lia|]. clear Hn.
  induction n as [|n IH].
  - rewrite samples_S. unfold samples at 1. simpl.
    rewrite keys_collect_fresh; simpl; rewrite got_keys by (apply Hd; lia).
    + done.
    + apply enabled_keys_NoDup.
  - rewrite samples_S, keys_collect_known.
    + apply IH. intros j Hj. apply Hd. lia.
    + intros k. rewrite got_keys by (apply Hd; lia).
      rewrite IH; [done|]. intros j Hj. apply Hd. lia.
Qed.

Lemma means_order env op args n :
  (forall j, j < n -> trial_status env op args j = SDone) ->
  0 < n ->
  keys (means env op args n) = key <$> enabled_backends args.
Proof.
  intros Hd Hn. unfold means. rewrite keys_fmap_values.
  by apply samples_order.
Qed.

Lemma aggregated_distinct env args n (ops : list Operation) d :
  NoDup (keys d ++ ((fun op => op_key op n) <$> ops)) ->
  foldl (store env args n) d ops
    = d ++ ((fun op => (op_key op n, means env op args n)) <$> ops).
Proof.
  revert d. induction ops as [|op ops IH]; intros d Hnd.
  - by rewrite app_nil_r.
  - simpl in *. unfold store at 2.
    assert (op_key op n ∉ keys d) as Hnin.
    { apply NoDup_app in Hnd as (_ & Hd & _). intros Hin.
      apply (Hd _ Hin). by left. }
    rewrite setitem_fresh by done. rewrite IH.
    + by rewrite <- app_assoc.
    + unfold keys. rewrite fmap_app, <- app_assoc. done.
Qed.

Lemma aggregated_entries env args n (ops : list Operation) d e :
  e ∈ foldl (store env args n) d ops ->
  e ∈ d \/ exists op, op ∈ ops /\ e.2 = means env op args n.
Proof.
  revert d. induction ops as [|op ops IH]; intros d; [by left|].
  simpl. intros [He|(op' & ? & ?)]%IH.
  - unfold store in He. apply elem_of_setitem in He as [?| ->]; [by left|].
    right. exists op. split; [by left|done].
  - right. exists op'. split; [by right|done].
Qed.

(** X10.  After a completed run of at least one iteration every entry
    of the timing set lists the enabled backends in the order in which
    the executor measures them.  When the labels of the catalogue are
    pairwise different, the timing set lists the operations in catalogue
    order, one entry each, holding for every enabled backend what
    [np.mean] returns for the samples of that operation. *)
Theorem timing_set_in_catalogue_order env ops args n all_times :
  reported (run_processes env ops args n init_world) all_times ->
  0 < n ->
  (forall e, e ∈ all_times -> keys e.2 = key <$> enabled_backends args)
  /\ (NoDup (label <$> ops) ->
      keys all_times = (fun op => Some (label op)) <$> ops
      /\ forall i op,
           ops !! i = Some op ->
           exists m,
             all_times !! i = Some (Some (label op), m)
             /\ means_of env op args n m).
Proof.
  intros [-> Hdone]%reported_aggregated Hn.
  assert (forall op, op ∈ ops ->
            forall j, j < n -> trial_status env op args j = SDone) as Htr.
  { intros op [i Hi]%list_elem_of_lookup.
    destruct (run_done env ops args n Hdone i op Hi) as [_ Ho].
    by apply op_done_trials in Ho as [_ Ho]. }
  split.
  - intros e [?%elem_of_nil|(op & Hop & ->)]%aggregated_entries; [done|].
    apply means_order; [by apply Htr|done].
  - intros Hnd. unfold aggregated.
    rewrite aggregated_distinct.
    + simpl. split.
      * unfold keys. rewrite <- list_fmap_compose. apply list_fmap_ext.
        intros ???. simpl. by destruct n; [lia|].
      * intros i op Hi. exists (means env op args n). split.
        -- rewrite list_lookup_fmap, Hi. simpl. by destruct n; [lia|].
        -- apply means_means_of; [|done]. apply Htr.
           by eapply list_elem_of_lookup_2.
    + simpl. destruct n; [lia|]. simpl.
      rewrite (list_fmap_compose label Some). by apply (NoDup_fmap_2 _).
Qed.

Lemma timing_set_in_catalogue_order_witness :
  (forall e,
     e ∈ [(Some "MatMul / 32x1x1000 x 32x1000x128", [("cpu", 0.01%float)]);
          (Some "ReLU / 128x16x1024", [("cpu", 0.01%float)])] ->
     keys e.2 = key <$> enabled_backends only_cpu)
  /\ (NoDup (label <$> [matmul; relu_first]) ->
      keys [(Some "MatMul / 32x1x1000 x 32x1000x128", [("cpu", 0.01%float)]);
            (Some "ReLU / 128x16x1024", [("cpu", 0.01%float)])]
        = (fun op => Some (label op)) <$> [matmul; relu_first]
      /\ forall i op,
           [matmul; relu_first] !! i = Some op ->
           exists m,
             [(Some "MatMul / 32x1x1000 x 32x1000x128",
               [("cpu", 0.01%float)]);
              (Some "ReLU / 128x16x1024", [("cpu", 0.01%float)])] !! i
               = Some (Some (label op), m)
             /\ means_of full_env op only_cpu 1 m).
Proof.
  apply (timing_set_in_catalogue_order full_env [matmul; relu_first] only_cpu 1).
  - split; reflexivity.
  - lia.
Defined.

(** ** Extending the catalogue *)

Section loops_app.
Context {A : Type} (f : A -> Status).

Lemma loop_status_app l1 l2 :
  loop_status f (l1 ++ l2)
    = match loop_status f l1 with SDone => loop_status f l2 | s => s end.
Proof.
  induction l1 as [|x l1 IH]; [done|]. simpl. by destruct (f x).
Qed.

Lemma executed_app l1 l2 :
  executed f (l1 ++ l2)
    = match loop_status f l1 with
      | SDone => l1 ++ executed f l2
      | _ => executed f l1
      end.
Proof.
  induction l1 as [|x l1 IH]; [done|]. simpl.
  destruct (f x); [|done..]. rewrite IH. by destruct (loop_status f l1).
Qed.
End loops_app.

(** How the trials of an operation end does not depend on its position
    in the catalogue. *)
Lemma loop_status_positions env args n (f : nat -> nat) (ops : list Operation) :
  loop_status (op_status env args n) (imap (fun i op => (f i, op)) ops)
    = loop_status (fun op => op_status env args n (0, op)) ops.
Proof.
  revert f. induction ops as [|op ops IH]; intros f; [done|].
  rewrite imap_cons. simpl.
  change (op_status env args n (f 0, op)) with (op_status env args n (0, op)).
  destruct (op_status env args n (0, op)); try done.
  apply (IH (f ∘ S)).
Qed.

Lemma run_status_app env ops1 ops2 args n :
  run_status env (ops1 ++ ops2) args n
    = match run_status env ops1 args n with
      | SDone => run_status env ops2 args n
      | s => s
      end.
Proof.
  unfold run_status. rewrite imap_app, loop_status_app.
  destruct (loop_status _ (imap pair ops1)); try done.
  rewrite (loop_status_positions env args n (fun i => length ops1 + i)).
  by rewrite (loop_status_positions env args n id).
Qed.

Lemma run_steps_app env ops1 ops2 args n P :
  exists rest,
    run_steps env (ops1 ++ ops2) args n P
      = run_steps env ops1 args n P ++ rest
    /\ (run_status env ops1 args n <> SDone -> rest = []).
Proof.
  unfold run_steps, run_status. rewrite imap_app, executed_app.
  destruct (loop_status _ (imap pair ops1)) eqn:Hs.
  - rewrite (executed_done _ (imap pair ops1)) by done. rewrite bind_app.
    by eexists.
  - exists []. by rewrite app_nil_r.
  - exists []. by rewrite app_nil_r.
Qed.

Lemma aggregated_app env ops1 ops2 args n :
  aggregated env (ops1 ++ ops2) args n
    = foldl (store env args n) (aggregated env ops1 args n) ops2.
Proof. unfold aggregated. by rewrite foldl_app. Qed.

Lemma stored_keys_prefix env args n (ops : list Operation) d :
  keys d `prefix_of` keys (foldl (store env args n) d ops).
Proof.
  revert d. induction ops as [|op ops IH]; intros d; [done|].
  simpl. etrans; [|apply IH]. apply keys_setitem_prefix.
Qed.

Lemma stored_elsewhere env args n (ops : list Operation) d k :
  (forall op, op ∈ ops -> op_key op n <> k) ->
  getitem (foldl (store env args n) d ops) k = getitem d k.
Proof.
  revert d. induction ops as [|op ops IH]; intros d Hk; [done|].
  simpl. rewrite IH by (intros; apply Hk; by right).
  unfold store. apply getitem_setitem_ne. apply Hk. by left.
Qed.

(** X11.  What the orchestrator does with a catalogue does not depend
    on the operations that follow: the log of a run over [ops1] is the
    beginning of the log of a run over [ops1 ++ ops2].  When the run over
    [ops1] does not complete, the longer run ends in the same way with the
    same log and prints nothing, no operation of [ops2] being attempted.
    When the longer run completes, so does the shorter one; its entries
    keep their places at the front of the longer timing set, and the
    entry of a label that no operation of [ops2] has is the same in
    both. *)
Theorem catalogue_prefix env ops1 ops2 args n :
  let r1 := run_processes env ops1 args n init_world in
  let r12 := run_processes env (ops1 ++ ops2) args n init_world in
  history (final r1) `prefix_of` history (final r12)
  /\ (status r1 <> SDone ->
      status r12 = status r1
      /\ history (final r12) = history (final r1)
      /\ reports (final r12) = [])
  /\ (forall a12,
        reported r12 a12 ->
        exists a1,
          reported r1 a1
          /\ keys a1 `prefix_of` keys a12
          /\ forall l, (forall op, op ∈ ops2 -> label op <> l) ->
               getitem a12 (Some l) = getitem a1 (Some l)).
Proof.
  cbv zeta.
  destruct (run_processes_spec env ops1 args n init_world eq_refl)
    as (Hh1 & Hs1 & Hr1).
  destruct (run_processes_spec env (ops1 ++ ops2) args n init_world eq_refl)
    as (Hh12 & Hs12 & Hr12).
  rewrite Hh1, Hh12, Hs1, Hs12, Hr12. simpl in *.
  destruct (run_steps_app env ops1 ops2 args n 0) as (rest & -> & Hrest).
  pose proof (run_status_app env ops1 ops2 args n) as Hst.
  split_and!.
  - by apply prefix_app_r.
  - intros Hne. rewrite Hrest, app_nil_r by done. rewrite Hst.
    by destruct (run_status env ops1 args n).
  - intros a12 [Hd Hrep]. unfold reported. rewrite Hs12 in Hd.
    rewrite Hr12, Hd in Hrep. injection Hrep as <-.
    rewrite Hd in Hst. rewrite Hs1, Hr1.
    destruct (run_status env ops1 args n); try done.
    exists (aggregated env ops1 args n). split_and!; try done.
    + rewrite aggregated_app. apply stored_keys_prefix.
    + intros l Hl. rewrite aggregated_app. apply stored_elsewhere.
      intros op Hop. destruct n; [done|]. simpl. intros [= ?].
      by apply (Hl op).
Qed.

(** * Worked runs

    The embedding is executable: the following runs are evaluated, not
    derived from the closed forms. *)

Example label_of_matmul : label matmul = "MatMul / 32x1x1000 x 32x1000x128".
Proof. reflexivity. Qed.

Example mean_of_two_samples : mean_of [0.01; 0.03]%float = 0.02%float.
Proof. reflexivity. Qed.

(** Two trials of [matmul] on the CPU alone, with durations 0.01 and 0.03:
    both tables show what the stand-in for [np.mean] makes of them,
    0.02. *)
Example two_trials_of_matmul :
  let r := run_processes full_env [matmul] only_cpu 2 init_world in
  status r = SDone
  /\ reports (final r) =
       [([(Some "MatMul / 32x1x1000 x 32x1000x128", [("cpu", 0.02%float)])],
         false);
        ([(Some "MatMul / 32x1x1000 x 32x1000x128", [("cpu", 0.02%float)])],
         true)]
  /\ pbar (final r) = 2
  /\ spawned (final r) = 2
  /\ alive (final r) = []
  /\ queue (final r) = [].
Proof. vm_compute. by split_and!. Qed.

(** One trial of each of two operations on the CPU alone: two entries of
    one key each, in catalogue order. *)
Example two_operations_cpu_only :
  let r := run_processes full_env [matmul; relu_first] only_cpu 1 init_world in
  status r = SDone
  /\ reports (final r) =
       [([(Some "MatMul / 32x1x1000 x 32x1000x128", [("cpu", 0.01%float)]);
          (Some "ReLU / 128x16x1024", [("cpu", 0.01%float)])], false);
        ([(Some "MatMul / 32x1x1000 x 32x1000x128", [("cpu", 0.01%float)]);
          (Some "ReLU / 128x16x1024", [("cpu", 0.01%float)])], true)]
  /\ map at_op (history (final r)) =
       [0; 0; 0; 0; 0; 0; 0; 0; 1; 1; 1; 1; 1; 1; 1; 1].
Proof. vm_compute. by split_and!. Qed.

(** The steps of a single trial, as logged. *)
Example steps_of_one_trial :
  map act (history (final (run_processes full_env [relu_first] only_cpu 1
                             init_world))) =
    [Create 0; Start 0; OpRun None (kw_torch "cpu");
     Put [("ReLU / 128x16x1024", [("cpu", 0.01%float)])];
     Get [("ReLU / 128x16x1024", [("cpu", 0.01%float)])];
     Join 0; Append "cpu" 0.01%float [0.01%float]; Update].
Proof. reflexivity. Qed.

(** [matmul] has two durations only: its third trial raises in the child,
    nothing is put, and the parent stays in [queue.get()]. *)
Example third_trial_of_matmul_blocks :
  let r := run_processes full_env [matmul] only_cpu 3 init_world in
  status r = SBlocked
  /\ reports (final r) = []
  /\ pbar (final r) = 2
  /\ alive (final r) = [2].
Proof. vm_compute. by split_and!. Qed.

(** With no backend enabled the child puts an empty mapping and the parent
    fails at [list(times.values())[0]]. *)
Example no_backend_indexerror :
  let r := run_processes full_env [matmul] nothing 1 init_world in
  status r = SRaised (IndexError "list index out of range")
  /\ reports (final r) = [].
Proof. vm_compute. by split_and!. Qed.

(** The script body with the discrete accelerator requested and absent. *)
Example cuda_requested_and_absent :
  let r := main no_cuda_env [matmul] everything init_world in
  status r = SRaised (AssertionError "CUDA device not found.")
  /\ history (final r) = [].
Proof. vm_compute. by split_and!. Qed.
